(** * EME Wealth Objetive: the projection engine of [app.py]

    A shallow embedding of the financial functions of [src/app.py]
    ([calcular_valor_futuro], [calcular_cagr_necesario],
    [calcular_aportacion_necesaria]) and of the numeric part of [main]
    (the savings gap and the year-by-year series), with the properties
    the specification states about them.

    Numbers.  Python's [int] is [Z].  Python's [float] is modelled by the
    exact rationals [Q]: every arithmetic operation is the exact one, so
    rounding, overflow and infinities are outside the model.  The one
    non-finite value the source tests for, NaN ([np.isnan]), is kept as a
    constructor of [pyfloat].  Equality of rationals is [Qeq] ([==]).

    Exceptions.  Code that can raise returns a [result]; [try ... except]
    is [try_except].

    numpy_financial.  [npf.rate] and [npf.pmt] are library calls: the engine
    functions take them as arguments, and the theorems hold for every
    solver, bound at most by the equation the library documents
    ([annuity_residual] = 0).  [npf_pmt] is the library's closed form of the
    payment; [npf.rate] is an iteration with no closed form, and concrete
    runs use [npf_rate_answering]. *)

From Stdlib Require Import Ascii String.
From Stdlib Require Import ZArith QArith Qabs Qpower Qround Lia Lqa List Bool.
Import ListNotations.

Local Open Scope Q_scope.

(** ** Python values and exceptions *)

(** The exceptions the model tells apart; [LibraryError] stands for
    whatever else a call into numpy_financial may raise. *)
Inductive pyexn : Type :=
| ZeroDivisionError
| TypeError
| LibraryError.

Inductive result (A : Type) : Type :=
| Return (a : A)
| Raise (e : pyexn).

Arguments Return {A} a.
Arguments Raise {A} e.

Definition bind {A B : Type} (c : result A) (k : A -> result B) : result B :=
  match c with
  | Return a => k a
  | Raise e => Raise e
  end.

Notation "x <- c ;; k" := (bind c (fun x => k))
  (at level 61, c at next level, right associativity).

(** [try: body / except Exception: handler] (also the bare [except:]). *)
Definition try_except {A : Type} (body : result A) (handler : result A) : result A :=
  match body with
  | Return a => Return a
  | Raise _ => handler
  end.

(** A float as the solvers hand it back: a number or NaN. *)
Inductive pyfloat : Type :=
| Num (q : Q)
| NaN.

(** [x > y] on numbers. *)
Definition Qgt_bool (x y : Q) : bool := negb (Qle_bool x y).

(** [x ** n] for a float [x] and an int [n]: Python raises
    [ZeroDivisionError] for [0.0 ** n] with [n < 0]. *)
Definition py_pow (x : Q) (n : Z) : result Q :=
  if ((n <? 0)%Z && Qeq_bool x 0)%bool then Raise ZeroDivisionError
  else Return (x ^ n).

(** [x / y] on floats: Python raises [ZeroDivisionError] for [y == 0]. *)
Definition py_div (x y : Q) : result Q :=
  if Qeq_bool y 0 then Raise ZeroDivisionError else Return (x / y).

(** Truthiness, as in [if x:] and [a if x else b]: [None] and [0.0] are
    false, every other float (NaN too) is true. *)
Definition truthy (x : option pyfloat) : bool :=
  match x with
  | None => false
  | Some (Num q) => negb (Qeq_bool q 0)
  | Some NaN => true
  end.

(** [range(n)] *)
Definition py_range (n : Z) : list Z := map Z.of_nat (seq 0 (Z.to_nat n)).

(** [for y in ys: body], the loop variables threaded as [st]. *)
Fixpoint for_each {St : Type} (body : St -> Z -> result St) (ys : list Z) (st : St)
  : result St :=
  match ys with
  | [] => Return st
  | y :: ys' => st' <- body st y ;; for_each body ys' st'
  end.

(** [abs(x)]: [abs(nan)] is [nan]; [abs(None)] raises [TypeError]. *)
Definition py_abs (x : option pyfloat) : result pyfloat :=
  match x with
  | None => Raise TypeError
  | Some (Num q) => Return (Num (Qabs q))
  | Some NaN => Return NaN
  end.

(** ** The engine (app.py, lines 93-144) *)

(** app.py:93-108 *)
Definition calcular_valor_futuro
    (present_value monthly_contribution : Q) (years : Z) (annual_rate : Q)
  : result Q :=
  let months := (years * 12)%Z in
  let monthly_rate := annual_rate / 12 in
  growth <- py_pow (1 + monthly_rate) months ;;
  let fv_principal := present_value * growth in
  fv_contributions <-
    (if Qgt_bool monthly_rate 0
     then growth' <- py_pow (1 + monthly_rate) months ;;
          factor <- py_div (growth' - 1) monthly_rate ;;
          Return (monthly_contribution * factor)
     else Return (monthly_contribution * inject_Z months)) ;;
  Return (fv_principal + fv_contributions).

(** The signature of [npf.rate(nper, pmt, pv, fv)]: it may raise, and what
    it returns is tested against [None] and NaN by the caller. *)
Definition rate_solver : Type := Z -> Q -> Q -> Q -> result (option pyfloat).

(** The signature of [npf.pmt(rate, nper, pv, fv)]. *)
Definition pmt_solver : Type := Q -> Z -> Q -> Q -> result (option pyfloat).

(** app.py:110-129.  [None] is the infeasible sentinel. *)
Definition calcular_cagr_necesario (npf_rate : rate_solver)
    (present_value target_value : Q) (years : Z) (monthly_contribution : Q)
  : result (option Q) :=
  let months := (years * 12)%Z in
  try_except
    (monthly_rate <- npf_rate months (- monthly_contribution) (- present_value) target_value ;;
     match monthly_rate with
     | None => Return None
     | Some NaN => Return None
     | Some (Num m) =>
         growth <- py_pow (1 + m) 12 ;;
         let annual_rate := growth - 1 in
         Return (Some annual_rate)
     end)
    (Return None).

(** app.py:131-144 *)
Definition calcular_aportacion_necesaria (npf_pmt : pmt_solver)
    (present_value target_value : Q) (years : Z) (annual_rate_fixed : Q)
  : result (option pyfloat) :=
  let months := (years * 12)%Z in
  let monthly_rate := annual_rate_fixed / 12 in
  try_except
    (monthly_pmt <- npf_pmt monthly_rate months (- present_value) target_value ;;
     a <- py_abs monthly_pmt ;;
     Return (Some a))
    (Return None).

(** ** The numeric part of [main] (app.py, lines 283-375) *)

(** app.py:283-284, the target wealth. *)
Definition objetivo_patrimonial (gasto_mensual_deseado tasa_retirada_segura : Q)
  : result Q :=
  let gasto_anual := gasto_mensual_deseado * 12 in
  py_div gasto_anual (tasa_retirada_segura / 100).

(** [x - y] with a float [x] that may be NaN. *)
Definition py_sub (x : pyfloat) (y : Q) : pyfloat :=
  match x with
  | Num q => Num (q - y)
  | NaN => NaN
  end.

(** app.py:314,
    [ahorro_necesario_mensual - aportacion_actual if ahorro_necesario_mensual else 0]. *)
Definition gap_ahorro (ahorro_necesario_mensual : option pyfloat) (aportacion_actual : Q)
  : pyfloat :=
  match ahorro_necesario_mensual with
  | Some a =>
      if truthy ahorro_necesario_mensual then py_sub a aportacion_actual else Num 0
  | None => Num 0
  end.

(** The three lists the loop of app.py:361-375 appends to. *)
Record series : Type := mk_series {
  serie_mercado : list Q;
  serie_objetivo : list Q;
  serie_cash : list Q
}.

Definition series_vacias : series := mk_series [] [] [].

(** The body of the loop, app.py:362-375. *)
Definition paso_series
    (patrimonio_inicial aportacion_actual rentabilidad_fija_decimal : Q)
    (cagr_necesario : option Q) (objetivo : Q) (st : series) (y : Z)
  : result series :=
  val_mercado <-
    calcular_valor_futuro patrimonio_inicial aportacion_actual y rentabilidad_fija_decimal ;;
  let mercado := serie_mercado st ++ [val_mercado] in
  ideal <-
    match cagr_necesario with
    | Some cagr =>
        if negb (Qeq_bool cagr 0)
        then val_obj <-
               calcular_valor_futuro patrimonio_inicial aportacion_actual y cagr ;;
             Return (serie_objetivo st ++ [val_obj])
        else Return (serie_objetivo st ++ [objetivo])
    | None => Return (serie_objetivo st ++ [objetivo])
    end ;;
  let val_cash := patrimonio_inicial + aportacion_actual * 12 * inject_Z y in
  Return (mk_series mercado ideal (serie_cash st ++ [val_cash])).

(** app.py:349, [years_axis = list(range(horizonte_temporal + 1))]. *)
Definition years_axis (horizonte_temporal : Z) : list Z :=
  py_range (horizonte_temporal + 1).

(** app.py:349-375: the trajectories, one point per year of [years_axis]. *)
Definition generar_series
    (patrimonio_inicial aportacion_actual rentabilidad_fija_decimal : Q)
    (cagr_necesario : option Q) (objetivo : Q) (horizonte_temporal : Z)
  : result series :=
  for_each
    (paso_series patrimonio_inicial aportacion_actual rentabilidad_fija_decimal
       cagr_necesario objetivo)
    (years_axis horizonte_temporal) series_vacias.

(** What [main] computes from the sidebar's inputs (app.py:283-375). *)
Record resumen : Type := mk_resumen {
  res_objetivo : Q;
  res_cagr_necesario : option Q;
  res_ahorro_necesario_mensual : option pyfloat;
  res_gap_ahorro : pyfloat;
  res_final_con_ref : Q;
  res_series : series
}.

Definition main_calculos (npf_rate : rate_solver) (npf_pmt : pmt_solver)
    (patrimonio_inicial gasto_mensual_deseado tasa_retirada_segura : Q)
    (horizonte_temporal : Z) (aportacion_actual rentabilidad_fija_ref : Q)
  : result resumen :=
  objetivo <- objetivo_patrimonial gasto_mensual_deseado tasa_retirada_segura ;;
  cagr_necesario <-
    calcular_cagr_necesario npf_rate patrimonio_inicial objetivo
      horizonte_temporal aportacion_actual ;;
  let rentabilidad_fija_decimal := rentabilidad_fija_ref / 100 in
  ahorro_necesario_mensual <-
    calcular_aportacion_necesaria npf_pmt patrimonio_inicial objetivo
      horizonte_temporal rentabilidad_fija_decimal ;;
  let gap := gap_ahorro ahorro_necesario_mensual aportacion_actual in
  final_con_ref <-
    calcular_valor_futuro patrimonio_inicial aportacion_actual
      horizonte_temporal rentabilidad_fija_decimal ;;
  todas <-
    generar_series patrimonio_inicial aportacion_actual rentabilidad_fija_decimal
      cagr_necesario objetivo horizonte_temporal ;;
  Return (mk_resumen objetivo cagr_necesario ahorro_necesario_mensual gap
            final_con_ref todas).

(** ** numpy_financial's annuity equation *)

(** The factor of the payment in the equation, for payments at the end of
    each period: [((1 + rate)**nper - 1) / rate], and [nper] at rate zero. *)
Definition annuity_factor (rate : Q) (nper : Z) : Q :=
  if Qeq_bool rate 0 then inject_Z nper
  else ((1 + rate) ^ nper - 1) / rate.

(** The left-hand side of the equation [npf.rate] and [npf.pmt] are
    documented to solve:
    [fv + pv*(1 + rate)**nper + pmt*(1 + rate*when)/rate*((1 + rate)**nper - 1) = 0],
    with [when = 0] (the default, "end"). *)
Definition annuity_residual (rate : Q) (nper : Z) (pmt pv fv : Q) : Q :=
  fv + pv * (1 + rate) ^ nper + pmt * annuity_factor rate nper.

(** A payment solver meets its documentation when every number it returns
    solves the equation. *)
Definition pmt_solver_ok (npf_pmt : pmt_solver) : Prop :=
  forall rate nper pv fv p,
    npf_pmt rate nper pv fv = Return (Some (Num p)) ->
    annuity_residual rate nper p pv fv == 0.

(** [npf.pmt] in closed form, as the library computes it:
    [temp = (1 + rate)**nper], [fact = nper] at rate zero and
    [(temp - 1)/rate] otherwise, result [-(fv + pv*temp)/fact].  numpy
    raises nothing; a zero [fact] gives a non-finite result, NaN here. *)
Definition npf_pmt : pmt_solver := fun rate nper pv fv =>
  let temp := (1 + rate) ^ nper in
  let fact := annuity_factor rate nper in
  if Qeq_bool fact 0 then Return (Some NaN)
  else Return (Some (Num (- (fv + pv * temp) / fact))).

(** A rate solver that answers [m] whatever it is asked: the stand-in for
    [npf.rate] at one concrete input whose root [m] is known. *)
Definition npf_rate_answering (m : Q) : rate_solver :=
  fun _ _ _ _ => Return (Some (Num m)).

(** ** Closed forms used in the proofs *)

(** [1 + x + ... + x^(n-1)] *)
Fixpoint geom (x : Q) (n : nat) : Q :=
  match n with
  | O => 0
  | S k => 1 + x * geom x k
  end.

(** The future value after [n] months at the monthly rate [r]. *)
Definition fv_meses (pv pmt : Q) (n : nat) (r : Q) : Q :=
  pv * (1 + r) ^ Z.of_nat n + pmt * geom (1 + r) n.

(** Rounding to a multiple of [1/d], up and down: the numeric bounds below
    are computed with these, on numerators of a few dozen bits. *)
Definition techo (d : positive) (q : Q) : Q :=
  Qceiling (q * inject_Z (Zpos d)) # d.

Definition suelo (d : positive) (q : Q) : Q :=
  Qfloor (q * inject_Z (Zpos d)) # d.

(** [x^n] by repeated squaring, rounded up after every product ... *)
Fixpoint pot_arriba (d : positive) (x : Q) (n : positive) : Q :=
  match n with
  | xH => x
  | xO p => let y := pot_arriba d x p in techo d (y * y)
  | xI p => let y := pot_arriba d x p in techo d (x * techo d (y * y))
  end.

(** ... and rounded down. *)
Fixpoint pot_abajo (d : positive) (x : Q) (n : positive) : Q :=
  match n with
  | xH => x
  | xO p => let y := pot_abajo d x p in suelo d (y * y)
  | xI p => let y := pot_abajo d x p in suelo d (x * suelo d (y * y))
  end.

(** The future value after [n] months with the power rounded up, and with
    it rounded down. *)
Definition fv_arriba (d : positive) (pv pmt : Q) (n : positive) (r : Q) : Q :=
  let g := pot_arriba d (1 + r) n in pv * g + pmt * ((g - 1) / r).

Definition fv_abajo (d : positive) (pv pmt : Q) (n : positive) (r : Q) : Q :=
  let g := pot_abajo d (1 + r) n in pv * g + pmt * ((g - 1) / r).

(** What [calcular_valor_futuro] returns when it returns. *)
Definition valor_futuro (pv pmt : Q) (years : Z) (r : Q) : Q :=
  let months := (years * 12)%Z in
  let monthly_rate := r / 12 in
  let growth := (1 + monthly_rate) ^ months in
  pv * growth
  + (if Qgt_bool monthly_rate 0 then pmt * ((growth - 1) / monthly_rate)
     else pmt * inject_Z months).

(** The point of [serie_objetivo] for the year [y]. *)
Definition punto_objetivo (pv pmt : Q) (cagr_necesario : option Q) (objetivo : Q)
    (y : Z) : Q :=
  match cagr_necesario with
  | Some cagr => if negb (Qeq_bool cagr 0) then valor_futuro pv pmt y cagr else objetivo
  | None => objetivo
  end.

(** A list of amounts that never decreases. *)
Definition no_decreciente (l : list Q) : Prop :=
  forall i j : nat, (i <= j)%nat -> (j < length l)%nat -> nth i l 0 <= nth j l 0.

(** ** More of [main]: the cards, the fields of the report and its table *)

(** What a card or a field of the report shows: a figure, which the source
    then formats, or one of its two fixed texts, ["Inviable"] and ["N/A"]. *)
Inductive campo : Type :=
| Cifra (x : pyfloat)
| Inviable
| No_disponible.

(** app.py:324-329, the value of the first card ([cagr_display]). *)
Definition tarjeta_rentabilidad (cagr_necesario : option Q) : campo :=
  match cagr_necesario with
  | Some cagr => Cifra (Num (cagr * 100))
  | None => Inviable
  end.

(** app.py:333-336, the value of the second card. *)
Definition tarjeta_ahorro (ahorro_necesario_mensual : option pyfloat) : campo :=
  match ahorro_necesario_mensual with
  | Some a => Cifra a
  | None => No_disponible
  end.

(** app.py:341, [deficit = final_con_ref - objetivo_patrimonial]. *)
Definition deficit (final_con_ref objetivo : Q) : Q := final_con_ref - objetivo.

(** app.py:420, the field ['cagr_necesario'] of the report. *)
Definition informe_cagr (cagr_necesario : option Q) : campo :=
  match cagr_necesario with
  | Some cagr =>
      if negb (Qeq_bool cagr 0) then Cifra (Num (cagr * 100)) else Inviable
  | None => Inviable
  end.

(** app.py:422, the field ['ahorro_necesario'] of the report. *)
Definition informe_ahorro (ahorro_necesario_mensual : option pyfloat) : campo :=
  match ahorro_necesario_mensual with
  | Some a => if truthy ahorro_necesario_mensual then Cifra a else No_disponible
  | None => No_disponible
  end.

(** app.py:427,
    [[i for i in range(len(years_axis)) if i <= 5 or i == len(years_axis)-1]]. *)
Definition indices_to_show (anios : list Z) : list Z :=
  let n := Z.of_nat (length anios) in
  filter (fun i => ((i <=? 5)%Z || (i =? n - 1)%Z)%bool) (py_range n).

(** [list(np.array(l)[indices])], for indices within [l] (those of
    [indices_to_show] are). *)
Definition py_take {A : Type} (d : A) (l : list A) (indices : list Z) : list A :=
  map (fun i => nth (Z.to_nat i) l d) indices.

(** The three columns of [df_export], app.py:428-432. *)
Record df_export : Type := mk_df_export {
  col_anio : list Z;
  col_patrimonio : list Q;
  col_total_aportado : list Q
}.

Definition tabla_informe (anios : list Z) (s : series) : df_export :=
  let indices := indices_to_show anios in
  mk_df_export
    (map (fun y => (2024 + y)%Z) (py_take 0%Z anios indices))
    (py_take 0 (serie_objetivo s) indices)
    (py_take 0 (serie_cash s) indices).

(** The years the table of the report keeps for a horizon [h]: 0 to 5 and
    the last one. *)
Definition anios_del_informe (h : Z) : list Z :=
  py_range (Z.min (h + 1) 6) ++ (if (5 <? h)%Z then [h] else []).

(** ** The CSV branch of [main] (app.py, lines 240-265) *)

(** Text is a byte string.  The exceptions of this branch, both caught by
    the [except Exception] of app.py:262-265, and a result type for them. *)
Inductive csv_exn : Type :=
| IndexError
| ValueError.

Inductive intento (A : Type) : Type :=
| Logrado (a : A)
| Fallido (e : csv_exn).

Arguments Logrado {A} a.
Arguments Fallido {A} e.

Definition intento_bind {A B : Type} (c : intento A) (k : A -> intento B) : intento B :=
  match c with
  | Logrado a => k a
  | Fallido e => Fallido e
  end.

Notation "x <~ c ;; k" := (intento_bind c (fun x => k))
  (at level 61, c at next level, right associativity).

(** [sub in s] on strings. *)
Fixpoint contiene (sub s : string) : bool :=
  (String.prefix sub s
   || match s with
      | EmptyString => false
      | String _ resto => contiene sub resto
      end)%bool.

(** [l[i]] *)
Definition py_item {A : Type} (l : list A) (i : nat) : intento A :=
  match nth_error l i with
  | Some x => Logrado x
  | None => Fallido IndexError
  end.

(** [next((c for c in cols if p(c)), default)], with [default] already
    evaluated, as an argument is. *)
Definition py_next (p : string -> bool) (cols : list string) (default : string) : string :=
  match find p cols with
  | Some c => c
  | None => default
  end.

(** [cols.index(c)] *)
Fixpoint py_list_index (c : string) (cols : list string) : intento nat :=
  match cols with
  | [] => Fallido ValueError
  | x :: resto =>
      if String.eqb x c then Logrado 0%nat
      else i <~ py_list_index c resto ;; Logrado (S i)
  end.

(** app.py:248, the test on a column's name. *)
Definition es_columna_activo (c : string) : bool :=
  (contiene "Asset" c || contiene "Name" c)%bool.

(** app.py:249 *)
Definition es_columna_valor (c : string) : bool :=
  (contiene "Value" c || contiene "Balance" c || contiene "Valor" c)%bool.

(** app.py:247-253: the positions preselected in the two select boxes. *)
Definition detectar_columnas (cols : list string) : intento (nat * nat) :=
  primera <~ py_item cols 0 ;;
  let col_asset := py_next es_columna_activo cols primera in
  segunda <~ py_item cols 1 ;;
  let col_value := py_next es_columna_valor cols segunda in
  indice_activo <~ py_list_index col_asset cols ;;
  indice_valor <~ py_list_index col_value cols ;;
  Logrado (indice_activo, indice_valor).

(** A cell of the column of values: text, a number ([read_csv] found the
    whole column numeric) or a missing value (NaN). *)
Inductive celda : Type :=
| Texto (s : string)
| Numero (q : Q)
| Falta.

Definition es_digito (c : ascii) : bool :=
  ((48 <=? nat_of_ascii c)%nat && (nat_of_ascii c <=? 57)%nat)%bool.

(** The characters the pattern [[^\d.-]] keeps.  The digits are the ASCII
    ones: Python's [\d] also takes the other Unicode decimal digits, which
    this model of text does not have. *)
Definition es_caracter_numerico (c : ascii) : bool :=
  (es_digito c || Ascii.eqb c "." || Ascii.eqb c "-")%bool.

(** [re.sub(r'[^\d.-]', '', s)] *)
Fixpoint limpiar (s : string) : string :=
  match s with
  | EmptyString => EmptyString
  | String c resto =>
      if es_caracter_numerico c then String c (limpiar resto) else limpiar resto
  end.

(** [.replace(r'[^\d.-]', '', regex=True)] on one cell: text only. *)
Definition reemplazar (c : celda) : celda :=
  match c with
  | Texto s => Texto (limpiar s)
  | Numero q => Numero q
  | Falta => Falta
  end.

Fixpoint todos_digitos (s : string) : bool :=
  match s with
  | EmptyString => true
  | String c resto => (es_digito c && todos_digitos resto)%bool
  end.

Definition cadena_vacia (s : string) : bool :=
  match s with
  | EmptyString => true
  | String _ _ => false
  end.

(** The integer a string of digits writes, after the digits [acc]. *)
Fixpoint valor_digitos (acc : Z) (s : string) : Z :=
  match s with
  | EmptyString => acc
  | String c resto => valor_digitos (10 * acc + (Z.of_nat (nat_of_ascii c) - 48)) resto
  end.

(** The text before the first ["."] and, when there is one, the text after. *)
Fixpoint partir_punto (s : string) : string * option string :=
  match s with
  | EmptyString => (EmptyString, None)
  | String c resto =>
      if Ascii.eqb c "." then (EmptyString, Some resto)
      else let (antes, despues) := partir_punto resto in (String c antes, despues)
  end.

(** [float(s)] for a text of digits, dots and minus signs, the only ones
    [limpiar] leaves: digits with at most one dot and at least one digit. *)
Definition py_float_sin_signo (s : string) : intento Q :=
  match partir_punto s with
  | (entera, None) =>
      if (todos_digitos entera && negb (cadena_vacia entera))%bool
      then Logrado (inject_Z (valor_digitos 0 entera))
      else Fallido ValueError
  | (entera, Some decimales) =>
      if (todos_digitos entera && todos_digitos decimales
          && negb (cadena_vacia entera && cadena_vacia decimales))%bool
      then Logrado (inject_Z (valor_digitos 0 (String.append entera decimales))
                    / inject_Z (10 ^ Z.of_nat (String.length decimales)))
      else Fallido ValueError
  end.

(** ... with an optional minus sign in front. *)
Definition py_float (s : string) : intento Q :=
  match s with
  | String c resto =>
      if Ascii.eqb c "-"
      then x <~ py_float_sin_signo resto ;; Logrado (- x)
      else py_float_sin_signo s
  | EmptyString => py_float_sin_signo s
  end.

(** [.astype(float)] on one cell: [None] is NaN. *)
Definition astype_float (c : celda) : intento (option Q) :=
  match c with
  | Texto s => x <~ py_float s ;; Logrado (Some x)
  | Numero q => Logrado (Some q)
  | Falta => Logrado None
  end.

(** The two steps of app.py:259 on one cell. *)
Definition convertir_celda (c : celda) : intento (option Q) :=
  astype_float (reemplazar c).

Fixpoint convertir_columna (col : list celda) : intento (list (option Q)) :=
  match col with
  | [] => Logrado []
  | c :: resto =>
      x <~ convertir_celda c ;;
      xs <~ convertir_columna resto ;;
      Logrado (x :: xs)
  end.

(** [.sum()], which skips NaN. *)
Fixpoint py_sum (xs : list (option Q)) : Q :=
  match xs with
  | [] => 0
  | Some x :: resto => x + py_sum resto
  | None :: resto => py_sum resto
  end.

(** app.py:257-263: [patrimonio_inicial] after the inner [try], from the
    cells of the column chosen; it keeps its initial 0.0 when the
    conversion raises. *)
Definition patrimonio_de_columna (col : list celda) : Q :=
  match convertir_columna col with
  | Logrado xs => py_sum xs
  | Fallido _ => 0
  end.

(** app.py:241-265 with the preselected columns left as they are: a data
    frame is its columns, each a name and its cells.  A failure of the
    detection is caught by the outer [except] and leaves 0.0 too. *)
Definition patrimonio_csv (df : list (string * list celda)) : Q :=
  match detectar_columnas (map fst df) with
  | Logrado (_, indice_valor) =>
      patrimonio_de_columna (snd (nth indice_valor df (EmptyString, [])))
  | Fallido _ => 0
  end.

(** [s] is [w] with characters inserted that are ASCII and neither digits,
    dots nor minus signs. *)
Inductive con_ruido : string -> string -> Prop :=
| ruido_fin : con_ruido EmptyString EmptyString
| ruido_igual (c : ascii) (w s : string) :
    con_ruido w s -> con_ruido (String c w) (String c s)
| ruido_extra (c : ascii) (w s : string) :
    es_caracter_numerico c = false -> (nat_of_ascii c < 128)%nat ->
    con_ruido w s -> con_ruido w (String c s).

(** The column preselected by the test [p], with [cols[d]] as the default:
    the first column whose name passes the test, or else the first column
    named as [cols[d]] is. *)
Definition preseleccion (p : string -> bool) (d : nat) (cols : list string) (i : nat)
  : Prop :=
  exists nombre,
    nth_error cols i = Some nombre
    /\ ((p nombre = true
         /\ forall j x, (j < i)%nat -> nth_error cols j = Some x -> p x = false)
        \/ ((forall x, In x cols -> p x = false)
            /\ nth_error cols d = Some nombre
            /\ forall j x, (j < i)%nat -> nth_error cols j = Some x -> x <> nombre)).

(** No character of the text is an ASCII digit. *)
Fixpoint sin_digitos (s : string) : bool :=
  match s with
  | EmptyString => true
  | String c resto => (negb (es_digito c) && sin_digitos resto)%bool
  end.

(** Every character of the text is ASCII. *)
Fixpoint solo_ascii (s : string) : bool :=
  match s with
  | EmptyString => true
  | String c resto => ((nat_of_ascii c <? 128)%nat && solo_ascii resto)%bool
  end.

(** ** Zero rate, zero horizon, negative rate *)

Lemma Qgt_bool_true (x y : Q) : Qgt_bool x y = true <-> y < x.
Proof.
  unfold Qgt_bool. rewrite negb_true_iff.
  split; intro H.
  - apply Qnot_le_lt. intro Hle. apply Qle_bool_iff in Hle. congruence.
  - destruct (Qle_bool x y) eqn:E; [|reflexivity].
    apply Qle_bool_iff in E. exfalso. exact (Qlt_not_le _ _ H E).
Qed.

Lemma Qgt_bool_false (x y : Q) : Qgt_bool x y = false <-> x <= y.
Proof.
  unfold Qgt_bool. rewrite negb_false_iff. apply Qle_bool_iff.
Qed.

Lemma py_pow_nonneg_exp (x : Q) (n : Z) :
  (0 <= n)%Z -> py_pow x n = Return (x ^ n).
Proof.
  intro Hn. unfold py_pow.
  destruct (Z.ltb_spec n 0) as [Hlt|_]; [lia|reflexivity].
Qed.

Lemma py_pow_nonzero_base (x : Q) (n : Z) :
  ~ x == 0 -> py_pow x n = Return (x ^ n).
Proof.
  intro Hx. unfold py_pow.
  destruct (Qeq_bool x 0) eqn:E.
  - apply Qeq_bool_iff in E. contradiction.
  - rewrite andb_false_r. reflexivity.
Qed.

Lemma py_div_nonzero (x y : Q) : ~ y == 0 -> py_div x y = Return (x / y).
Proof.
  intro Hy. unfold py_div.
  destruct (Qeq_bool y 0) eqn:E; [|reflexivity].
  apply Qeq_bool_iff in E. contradiction.
Qed.

Lemma tasa_mensual (r : Q) : r / 12 == r * (1 # 12).
Proof. reflexivity. Qed.

Lemma tasa_mensual_positiva (r : Q) : 0 < r -> 0 < r / 12.
Proof. intro H. rewrite tasa_mensual. lra. Qed.

Lemma tasa_mensual_no_positiva (r : Q) : r <= 0 -> r / 12 <= 0.
Proof. intro H. rewrite tasa_mensual. lra. Qed.

(** The branch [monthly_rate > 0]: the annuity formula, nothing raised. *)
Lemma valor_futuro_tasa_positiva (pv pmt : Q) (years : Z) (r : Q) :
  0 < r ->
  calcular_valor_futuro pv pmt years r =
  Return (pv * (1 + r / 12) ^ (years * 12)
          + pmt * (((1 + r / 12) ^ (years * 12) - 1) / (r / 12))).
Proof.
  intro Hr. pose proof (tasa_mensual_positiva r Hr) as Hm.
  unfold calcular_valor_futuro.
  assert (Hb : ~ 1 + r / 12 == 0) by (intro E; lra).
  rewrite (py_pow_nonzero_base _ _ Hb). cbn [bind].
  rewrite (proj2 (Qgt_bool_true _ _) Hm). cbn [bind].
  rewrite py_div_nonzero by (intro E; lra).
  reflexivity.
Qed.

(** The branch [else]: the linear contribution. *)
Lemma valor_futuro_tasa_no_positiva (pv pmt : Q) (years : Z) (r : Q) :
  r <= 0 ->
  calcular_valor_futuro pv pmt years r =
  (growth <- py_pow (1 + r / 12) (years * 12) ;;
   Return (pv * growth + pmt * inject_Z (years * 12))).
Proof.
  intro Hr. pose proof (tasa_mensual_no_positiva r Hr) as Hm.
  unfold calcular_valor_futuro.
  rewrite (proj2 (Qgt_bool_false _ _) Hm).
  destruct (py_pow (1 + r / 12) (years * 12)); reflexivity.
Qed.

(** C4. With a zero annual rate the future value is returned (nothing is
    raised, nothing is divided by the rate: the contribution component is
    [pmt * months]) and it equals [pv + pmt * 12 * years], for every [pv],
    [pmt] and integer [years]. *)
Theorem valor_futuro_tasa_cero (pv pmt : Q) (years : Z) :
  calcular_valor_futuro pv pmt years 0
    = Return (pv * (1 + 0 / 12) ^ (years * 12) + pmt * inject_Z (years * 12))
  /\ pv * (1 + 0 / 12) ^ (years * 12) + pmt * inject_Z (years * 12)
     == pv + pmt * 12 * inject_Z years.
Proof.
  split.
  - rewrite valor_futuro_tasa_no_positiva by apply Qle_refl.
    rewrite py_pow_nonzero_base by (intro H; vm_compute in H; discriminate).
    reflexivity.
  - assert (H1 : (1 + 0 / 12) ^ (years * 12) == 1).
    { assert (E : 1 + 0 / 12 == 1) by reflexivity.
      rewrite E. apply Qpower_1. }
    rewrite H1, inject_Z_mult.
    change (inject_Z 12) with 12.
    ring.
Qed.

(** C5. With a zero horizon and a zero contribution the future value is the
    present value, whatever the annual rate. *)
Theorem valor_futuro_horizonte_cero (pv r : Q) :
  exists v, calcular_valor_futuro pv 0 0 r = Return v /\ v == pv.
Proof.
  destruct (Qlt_le_dec 0 r) as [Hr|Hr].
  - rewrite valor_futuro_tasa_positiva by exact Hr.
    eexists. split; [reflexivity|].
    change (0 * 12)%Z with 0%Z. change ((1 + r / 12) ^ 0) with 1. ring.
  - rewrite valor_futuro_tasa_no_positiva by exact Hr.
    change (0 * 12)%Z with 0%Z.
    rewrite py_pow_nonneg_exp by lia. cbn [bind].
    eexists. split; [reflexivity|].
    change ((1 + r / 12) ^ 0) with 1. change (inject_Z 0) with 0. ring.
Qed.

(** C10. For a strictly negative annual rate the contribution component is
    the linear [monthly_contribution * months] (the branch tests
    [monthly_rate > 0]), while the principal is still compounded at the
    negative monthly rate; for a horizon that is not negative the value is
    [pv * (1 + r/12)^months + pmt * months]. *)
Theorem valor_futuro_tasa_negativa (pv pmt : Q) (years : Z) (r : Q) :
  r < 0 ->
  calcular_valor_futuro pv pmt years r
    = (growth <- py_pow (1 + r / 12) (years * 12) ;;
       Return (pv * growth + pmt * inject_Z (years * 12)))
  /\ ((0 <= years)%Z ->
      calcular_valor_futuro pv pmt years r
        = Return (pv * (1 + r / 12) ^ (years * 12) + pmt * inject_Z (years * 12))).
Proof.
  intro Hr.
  assert (E := valor_futuro_tasa_no_positiva pv pmt years r (Qlt_le_weak _ _ Hr)).
  split; [exact E|].
  intro Hy. rewrite E, py_pow_nonneg_exp by lia. reflexivity.
Qed.

Lemma valor_futuro_tasa_negativa_witness :
  - (6 # 100) < 0
  /\ calcular_valor_futuro 1000 100 2 (- (6 # 100))
     = Return (1000 * (1 + - (6 # 100) / 12) ^ 24 + 100 * inject_Z 24).
Proof.
  split; [reflexivity|].
  apply (valor_futuro_tasa_negativa 1000 100 2 (- (6 # 100))); [reflexivity|lia].
Defined.

(** ** The engine raises nothing on a horizon that is not negative *)

Lemma calcular_valor_futuro_devuelve (pv pmt : Q) (years : Z) (r : Q) :
  (0 <= years)%Z ->
  calcular_valor_futuro pv pmt years r = Return (valor_futuro pv pmt years r).
Proof.
  intro Hy. unfold valor_futuro.
  destruct (Qlt_le_dec 0 r) as [Hr|Hr].
  - rewrite valor_futuro_tasa_positiva by exact Hr.
    rewrite (proj2 (Qgt_bool_true _ _) (tasa_mensual_positiva r Hr)). reflexivity.
  - rewrite valor_futuro_tasa_no_positiva by exact Hr.
    rewrite py_pow_nonneg_exp by lia.
    rewrite (proj2 (Qgt_bool_false _ _) (tasa_mensual_no_positiva r Hr)). reflexivity.
Qed.

(** ** The solvers' wrappers: sentinel, absolute value, gap *)

Lemma cagr_necesario_devuelve (npf_rate : rate_solver)
    (pv target : Q) (years : Z) (pmt : Q) :
  exists r : option Q,
    calcular_cagr_necesario npf_rate pv target years pmt = Return r.
Proof.
  unfold calcular_cagr_necesario.
  destruct (npf_rate (years * 12)%Z (- pmt) (- pv) target) as [[[m|]|]|e];
    cbn [bind try_except]; eexists; reflexivity.
Qed.

(** C3. [calcular_cagr_necesario] raises nothing, whatever [npf.rate] does:
    when the solver raises, returns [None] or returns NaN the result is the
    sentinel [None]; when it returns a number [m] the result is the annual
    rate [(1 + m)^12 - 1]; [None] is no number. *)
Theorem cagr_necesario_nunca_lanza (npf_rate : rate_solver)
    (pv target : Q) (years : Z) (pmt : Q) :
  exists r : option Q,
    calcular_cagr_necesario npf_rate pv target years pmt = Return r
    /\ match npf_rate (years * 12)%Z (- pmt) (- pv) target with
       | Return (Some (Num m)) => r = Some ((1 + m) ^ 12 - 1)
       | Return (Some NaN) => r = None
       | Return None => r = None
       | Raise _ => r = None
       end.
Proof.
  unfold calcular_cagr_necesario.
  destruct (npf_rate (years * 12)%Z (- pmt) (- pv) target) as [[[m|]|]|e];
    cbn [bind try_except].
  - rewrite py_pow_nonneg_exp by lia. cbn [bind].
    eexists. split; reflexivity.
  - eexists. split; reflexivity.
  - eexists. split; reflexivity.
  - eexists. split; reflexivity.
Qed.

(** C9. When [npf.pmt] returns a number [p], [calcular_aportacion_necesaria]
    returns its absolute value, which is not negative. *)
Theorem aportacion_necesaria_valor_absoluto (npf_pmt' : pmt_solver)
    (pv target : Q) (years : Z) (rate p : Q) :
  npf_pmt' (rate / 12) (years * 12)%Z (- pv) target = Return (Some (Num p)) ->
  calcular_aportacion_necesaria npf_pmt' pv target years rate
    = Return (Some (Num (Qabs p)))
  /\ 0 <= Qabs p.
Proof.
  intro H. unfold calcular_aportacion_necesaria. rewrite H.
  split; [reflexivity | apply Qabs_nonneg].
Qed.

Lemma aportacion_necesaria_valor_absoluto_witness :
  calcular_aportacion_necesaria npf_pmt 1000 4000 1 0
    = Return (Some (Num (Qabs (- (4000 + - (1000) * (1 + 0 / 12) ^ 12)
                               / annuity_factor (0 / 12) 12))))
  /\ 0 <= Qabs (- (4000 + - (1000) * (1 + 0 / 12) ^ 12) / annuity_factor (0 / 12) 12).
Proof.
  apply (aportacion_necesaria_valor_absoluto npf_pmt 1000 4000 1 0). reflexivity.
Defined.

(** X3. The gap is the difference whenever the required payment is a number
    other than zero. *)
Lemma gap_ahorro_diferencia (a aportacion_actual : Q) :
  ~ a == 0 ->
  gap_ahorro (Some (Num a)) aportacion_actual = Num (a - aportacion_actual).
Proof.
  intro Ha. unfold gap_ahorro, truthy.
  destruct (Qeq_bool a 0) eqn:E; [|reflexivity].
  apply Qeq_bool_iff in E. contradiction.
Qed.

(** A required payment of zero is taken for the sentinel: the gap is set to
    zero, whatever the current contribution. *)
Lemma gap_ahorro_cero (a aportacion_actual : Q) :
  a == 0 -> gap_ahorro (Some (Num a)) aportacion_actual = Num 0.
Proof.
  intro Ha. unfold gap_ahorro, truthy.
  rewrite (proj2 (Qeq_bool_iff a 0) Ha). reflexivity.
Qed.

(** ** The loop of [main]: one point per year *)

Section Series.

Variables (pv ap rate : Q) (cagr : option Q) (objetivo : Q).

(** One turn of the loop appends one point to each list. *)
Lemma paso_series_devuelve (st : series) (y : Z) :
  (0 <= y)%Z ->
  paso_series pv ap rate cagr objetivo st y =
  Return (mk_series (serie_mercado st ++ [valor_futuro pv ap y rate])
                    (serie_objetivo st ++ [punto_objetivo pv ap cagr objetivo y])
                    (serie_cash st ++ [pv + ap * 12 * inject_Z y])).
Proof.
  intro Hy. unfold paso_series, punto_objetivo.
  rewrite calcular_valor_futuro_devuelve by exact Hy. cbn [bind].
  destruct cagr as [c|]; [|reflexivity].
  destruct (negb (Qeq_bool c 0)); [|reflexivity].
  rewrite calcular_valor_futuro_devuelve by exact Hy. reflexivity.
Qed.

(** The whole loop, from any lists: the points of the years are appended
    in order. *)
Lemma for_each_paso_series (ys : list Z) :
  Forall (fun y => (0 <= y)%Z) ys ->
  forall st : series,
    for_each (paso_series pv ap rate cagr objetivo) ys st =
    Return (mk_series
              (serie_mercado st ++ map (fun y => valor_futuro pv ap y rate) ys)
              (serie_objetivo st ++ map (punto_objetivo pv ap cagr objetivo) ys)
              (serie_cash st ++ map (fun y => pv + ap * 12 * inject_Z y) ys)).
Proof.
  induction 1 as [|y ys Hy Hys IH]; intro st; cbn [for_each map].
  - rewrite !app_nil_r. destruct st; reflexivity.
  - rewrite paso_series_devuelve by exact Hy. cbn [bind].
    rewrite IH. cbn [serie_mercado serie_objetivo serie_cash].
    rewrite <- !app_assoc. reflexivity.
Qed.

Lemma years_axis_no_negativos (h : Z) : Forall (fun y => (0 <= y)%Z) (years_axis h).
Proof.
  unfold years_axis, py_range. apply Forall_forall.
  intros y Hin. apply in_map_iff in Hin. destruct Hin as [k [<- _]]. lia.
Qed.

Lemma years_axis_length (h : Z) : length (years_axis h) = Z.to_nat (h + 1).
Proof.
  unfold years_axis, py_range. rewrite length_map, length_seq. reflexivity.
Qed.

Lemma years_axis_nth (h : Z) (k : nat) :
  (k < Z.to_nat (h + 1))%nat -> nth k (years_axis h) 0%Z = Z.of_nat k.
Proof.
  intro Hk. unfold years_axis, py_range.
  change 0%Z with (Z.of_nat 0). rewrite map_nth, seq_nth by exact Hk.
  reflexivity.
Qed.

Lemma nth_map_years_axis (f : Z -> Q) (h : Z) (k : nat) :
  (k < Z.to_nat (h + 1))%nat ->
  nth k (map f (years_axis h)) 0 = f (Z.of_nat k).
Proof.
  intro Hk.
  rewrite (nth_indep _ 0 (f 0%Z)) by (rewrite length_map, years_axis_length; exact Hk).
  rewrite map_nth, years_axis_nth by exact Hk. reflexivity.
Qed.

(** The lists [main] draws, in closed form. *)
Lemma generar_series_devuelve (h : Z) :
  generar_series pv ap rate cagr objetivo h =
  Return (mk_series
            (map (fun y => valor_futuro pv ap y rate) (years_axis h))
            (map (punto_objetivo pv ap cagr objetivo) (years_axis h))
            (map (fun y => pv + ap * 12 * inject_Z y) (years_axis h))).
Proof.
  unfold generar_series.
  rewrite for_each_paso_series by apply years_axis_no_negativos.
  reflexivity.
Qed.

End Series.

(** C6. For a horizon of at least one year the loop returns lists of
    exactly [horizonte + 1] points, one per year [0..horizonte] of
    [years_axis]; the point of year [k] is what [calcular_valor_futuro]
    returns for the initial wealth, the monthly contribution, the rate and
    [k] (nothing else enters), and the cash point is [pv + ap * 12 * k]. *)
Theorem generar_series_un_punto_por_anio
    (pv ap rate : Q) (cagr : option Q) (objetivo : Q) (h : Z) :
  (1 <= h)%Z ->
  exists st : series,
    generar_series pv ap rate cagr objetivo h = Return st
    /\ length (years_axis h) = Z.to_nat (h + 1)
    /\ length (serie_mercado st) = Z.to_nat (h + 1)
    /\ length (serie_objetivo st) = Z.to_nat (h + 1)
    /\ length (serie_cash st) = Z.to_nat (h + 1)
    /\ forall k : nat, (Z.of_nat k <= h)%Z ->
         nth k (years_axis h) 0%Z = Z.of_nat k
         /\ calcular_valor_futuro pv ap (Z.of_nat k) rate
            = Return (nth k (serie_mercado st) 0)
         /\ nth k (serie_objetivo st) 0
            = punto_objetivo pv ap cagr objetivo (Z.of_nat k)
         /\ nth k (serie_cash st) 0 = pv + ap * 12 * inject_Z (Z.of_nat k).
Proof.
  intro Hh. eexists. split; [apply generar_series_devuelve|].
  cbn [serie_mercado serie_objetivo serie_cash].
  rewrite !length_map, years_axis_length.
  repeat split; try reflexivity.
  - apply years_axis_nth. lia.
  - rewrite nth_map_years_axis by lia.
    apply calcular_valor_futuro_devuelve. lia.
  - apply nth_map_years_axis. lia.
  - apply nth_map_years_axis. lia.
Qed.

Lemma generar_series_un_punto_por_anio_witness :
  exists st : series,
    generar_series 1000 100 (6 # 100) None 5000 2 = Return st
    /\ length (years_axis 2) = 3%nat
    /\ length (serie_mercado st) = 3%nat
    /\ length (serie_objetivo st) = 3%nat
    /\ length (serie_cash st) = 3%nat
    /\ forall k : nat, (Z.of_nat k <= 2)%Z ->
         nth k (years_axis 2) 0%Z = Z.of_nat k
         /\ calcular_valor_futuro 1000 100 (Z.of_nat k) (6 # 100)
            = Return (nth k (serie_mercado st) 0)
         /\ nth k (serie_objetivo st) 0
            = punto_objetivo 1000 100 None 5000 (Z.of_nat k)
         /\ nth k (serie_cash st) 0 = 1000 + 100 * 12 * inject_Z (Z.of_nat k).
Proof.
  apply (generar_series_un_punto_por_anio 1000 100 (6 # 100) None 5000 2). lia.
Defined.

(** ** Powers and geometric sums *)

#[local] Instance geom_comp : Proper (Qeq ==> eq ==> Qeq) geom.
Proof.
  intros x y Hxy n m <-. induction n as [|n IH]; cbn [geom].
  - reflexivity.
  - rewrite IH, Hxy. reflexivity.
Qed.

Lemma Qpower_nat_succ (x : Q) (n : nat) :
  x ^ Z.of_nat (S n) == x * x ^ Z.of_nat n.
Proof.
  rewrite Nat2Z.inj_succ. unfold Z.succ.
  rewrite Z.add_comm, Qpower_plus' by lia.
  rewrite Qpower_1_r. reflexivity.
Qed.

Lemma Qpower_nat_nonneg (x : Q) (n : nat) : 0 <= x -> 0 <= x ^ Z.of_nat n.
Proof. intro Hx. apply Qpower_0_le. exact Hx. Qed.

Lemma Qpower_nat_mono (x y : Q) (n : nat) :
  0 <= x -> x <= y -> x ^ Z.of_nat n <= y ^ Z.of_nat n.
Proof.
  intros Hx Hxy. induction n as [|n IH].
  - apply Qle_refl.
  - rewrite !Qpower_nat_succ.
    pose proof (Qpower_nat_nonneg x n Hx) as Hp.
    nra.
Qed.

(** [(x - 1) (1 + x + ... + x^(n-1)) = x^n - 1] *)
Lemma geom_formula (x : Q) (n : nat) :
  (x - 1) * geom x n == x ^ Z.of_nat n - 1.
Proof.
  induction n as [|n IH].
  - cbn. ring.
  - rewrite Qpower_nat_succ. cbn [geom].
    setoid_replace ((x - 1) * (1 + x * geom x n))
      with ((x - 1) + x * ((x - 1) * geom x n)) by ring.
    rewrite IH. ring.
Qed.

Lemma geom_succ_r (x : Q) (n : nat) :
  geom x (S n) == geom x n + x ^ Z.of_nat n.
Proof.
  induction n as [|n IH].
  - cbn. ring.
  - transitivity (1 + x * (geom x n + x ^ Z.of_nat n)).
    + rewrite <- IH. reflexivity.
    + rewrite Qpower_nat_succ. cbn [geom]. ring.
Qed.

Lemma geom_uno (n : nat) : geom 1 n == inject_Z (Z.of_nat n).
Proof.
  induction n as [|n IH].
  - reflexivity.
  - cbn [geom]. rewrite IH, Nat2Z.inj_succ. unfold Z.succ.
    rewrite inject_Z_plus. change (inject_Z 1) with 1. ring.
Qed.

Lemma geom_nonneg (x : Q) (n : nat) : 0 <= x -> 0 <= geom x n.
Proof.
  intro Hx. induction n as [|n IH]; cbn [geom].
  - apply Qle_refl.
  - nra.
Qed.

Lemma geom_mono_base (x y : Q) (n : nat) :
  0 <= x -> x <= y -> geom x n <= geom y n.
Proof.
  intros Hx Hxy. induction n as [|n IH]; cbn [geom].
  - apply Qle_refl.
  - pose proof (geom_nonneg x n Hx). nra.
Qed.

Lemma geom_mono_n (x : Q) (n m : nat) :
  0 <= x -> (n <= m)%nat -> geom x n <= geom x m.
Proof.
  intros Hx Hnm. induction Hnm as [|m Hnm IH].
  - apply Qle_refl.
  - rewrite geom_succ_r. pose proof (Qpower_nat_nonneg x m Hx). lra.
Qed.

(** At a monthly rate that is not zero the annuity formula of the source is
    the geometric sum. *)
Lemma anualidad_geom (r : Q) (n : nat) :
  ~ r == 0 -> ((1 + r) ^ Z.of_nat n - 1) / r == geom (1 + r) n.
Proof.
  intro Hr. rewrite <- geom_formula.
  setoid_replace (1 + r - 1) with r by ring.
  field. exact Hr.
Qed.

#[local] Instance fv_meses_comp : Proper (Qeq ==> Qeq ==> eq ==> Qeq ==> Qeq) fv_meses.
Proof.
  intros pv pv' Hpv pmt pmt' Hpmt n n' <- r r' Hr. unfold fv_meses.
  rewrite Hpv, Hpmt, Hr. reflexivity.
Qed.

(** The future value grows with the number of months ... *)
Lemma fv_meses_mono_n (pv pmt r : Q) (n m : nat) :
  0 <= pv -> 0 <= pmt -> 0 <= r -> (n <= m)%nat ->
  fv_meses pv pmt n r <= fv_meses pv pmt m r.
Proof.
  intros Hpv Hpmt Hr Hnm. unfold fv_meses.
  assert (H1 : (1 + r) ^ Z.of_nat n <= (1 + r) ^ Z.of_nat m).
  { apply Qpower_le_compat_l; [lia | lra]. }
  assert (H2 : geom (1 + r) n <= geom (1 + r) m).
  { apply geom_mono_n; [lra | exact Hnm]. }
  nra.
Qed.

(** ... and with the monthly rate. *)
Lemma fv_meses_mono_r (pv pmt : Q) (n : nat) (r r' : Q) :
  0 <= pv -> 0 <= pmt -> 0 <= r -> r <= r' ->
  fv_meses pv pmt n r <= fv_meses pv pmt n r'.
Proof.
  intros Hpv Hpmt Hr Hrr. unfold fv_meses.
  assert (H1 : (1 + r) ^ Z.of_nat n <= (1 + r') ^ Z.of_nat n).
  { apply Qpower_nat_mono; lra. }
  assert (H2 : geom (1 + r) n <= geom (1 + r') n).
  { apply geom_mono_base; lra. }
  nra.
Qed.

(** The value [calcular_valor_futuro] returns, as a future value by months. *)
Lemma valor_futuro_fv_meses (pv pmt : Q) (years : Z) (r : Q) :
  (0 <= years)%Z -> 0 <= r ->
  valor_futuro pv pmt years r == fv_meses pv pmt (Z.to_nat (years * 12)) (r / 12).
Proof.
  intros Hy Hr. unfold valor_futuro, fv_meses.
  rewrite Z2Nat.id by lia.
  destruct (Qgt_bool (r / 12) 0) eqn:E.
  - apply Qgt_bool_true in E.
    rewrite <- (anualidad_geom (r / 12) (Z.to_nat (years * 12))) by lra.
    rewrite Z2Nat.id by lia. reflexivity.
  - apply Qgt_bool_false in E.
    pose proof (tasa_mensual r) as Hm.
    assert (E0 : r / 12 == 0) by lra.
    rewrite E0. setoid_replace (1 + 0) with 1 by ring.
    rewrite geom_uno, Z2Nat.id by lia. reflexivity.
Qed.

(** ** Bounds on powers, computed with small numbers *)

Lemma techo_cota (d : positive) (q : Q) : q <= techo d q.
Proof.
  unfold techo. rewrite Qmake_Qdiv.
  apply Qle_shift_div_l; [reflexivity|]. apply Qle_ceiling.
Qed.

Lemma suelo_cota (d : positive) (q : Q) : suelo d q <= q.
Proof.
  unfold suelo. rewrite Qmake_Qdiv.
  apply Qle_shift_div_r; [reflexivity|]. apply Qfloor_le.
Qed.

Lemma suelo_nonneg (d : positive) (q : Q) : 0 <= q -> 0 <= suelo d q.
Proof.
  intro Hq. unfold suelo.
  assert (H : (0 <= Qfloor (q * inject_Z (Zpos d)))%Z).
  { change 0%Z with (Qfloor 0). apply Qfloor_resp_le.
    apply Qmult_le_0_compat; [exact Hq | discriminate]. }
  set (n := Qfloor (q * inject_Z (Zpos d))) in *.
  unfold Qle. cbn [Qnum Qden]. lia.
Qed.

Lemma Qpower_doble (x : Q) (p : positive) :
  x ^ Zpos p~0 == x ^ Zpos p * x ^ Zpos p.
Proof.
  rewrite <- Qpower_plus' by lia. rewrite Pos2Z.add_pos_pos, Pos.add_diag.
  reflexivity.
Qed.

Lemma Qpower_doble_mas_uno (x : Q) (p : positive) :
  x ^ Zpos p~1 == x * (x ^ Zpos p * x ^ Zpos p).
Proof.
  rewrite <- Qpower_doble.
  replace (Zpos p~1) with (1 + Zpos p~0)%Z by lia.
  rewrite Qpower_plus' by lia. rewrite Qpower_1_r. reflexivity.
Qed.

Lemma cuadrado_mono (a b : Q) : 0 <= a -> a <= b -> a * a <= b * b.
Proof. intros Ha Hab. nra. Qed.

Lemma producto_mono (x a b : Q) : 0 <= x -> a <= b -> x * a <= x * b.
Proof. intros Hx Hab. nra. Qed.

Lemma pot_arriba_cota (d : positive) (x : Q) (n : positive) :
  0 <= x -> x ^ Zpos n <= pot_arriba d x n.
Proof.
  intro Hx. induction n as [p IH|p IH|]; cbn [pot_arriba].
  - rewrite Qpower_doble_mas_uno.
    pose proof (cuadrado_mono _ _ (Qpower_0_le x (Zpos p) Hx) IH) as H1.
    apply (Qle_trans _ (x * techo d (pot_arriba d x p * pot_arriba d x p)));
      [|apply techo_cota].
    apply producto_mono; [exact Hx|].
    apply (Qle_trans _ _ _ H1). apply techo_cota.
  - rewrite Qpower_doble.
    pose proof (cuadrado_mono _ _ (Qpower_0_le x (Zpos p) Hx) IH) as H1.
    apply (Qle_trans _ _ _ H1). apply techo_cota.
  - rewrite Qpower_1_r. apply Qle_refl.
Qed.

Lemma pot_abajo_cota (d : positive) (x : Q) (n : positive) :
  0 <= x -> 0 <= pot_abajo d x n /\ pot_abajo d x n <= x ^ Zpos n.
Proof.
  intro Hx. induction n as [p [IH0 IH]|p [IH0 IH]|]; cbn [pot_abajo].
  - rewrite Qpower_doble_mas_uno.
    pose proof (cuadrado_mono _ _ IH0 IH) as H1.
    assert (H3 : 0 <= pot_abajo d x p * pot_abajo d x p)
      by (apply Qmult_le_0_compat; exact IH0).
    pose proof (suelo_nonneg d _ H3) as H2.
    split.
    + apply suelo_nonneg. apply Qmult_le_0_compat; assumption.
    + apply (Qle_trans _ (x * suelo d (pot_abajo d x p * pot_abajo d x p)));
        [apply suelo_cota|].
      apply producto_mono; [exact Hx|].
      apply (Qle_trans _ (pot_abajo d x p * pot_abajo d x p));
        [apply suelo_cota | exact H1].
  - rewrite Qpower_doble.
    pose proof (cuadrado_mono _ _ IH0 IH) as H1.
    split.
    + apply suelo_nonneg. apply Qmult_le_0_compat; exact IH0.
    + apply (Qle_trans _ (pot_abajo d x p * pot_abajo d x p));
        [apply suelo_cota | exact H1].
  - rewrite Qpower_1_r. split; [exact Hx | apply Qle_refl].
Qed.

Lemma fv_meses_formula (pv pmt : Q) (n : nat) (r : Q) :
  ~ r == 0 ->
  fv_meses pv pmt n r
  == pv * (1 + r) ^ Z.of_nat n + pmt * (((1 + r) ^ Z.of_nat n - 1) / r).
Proof.
  intro Hr. unfold fv_meses. rewrite anualidad_geom by exact Hr. reflexivity.
Qed.

Lemma fv_meses_arriba (d : positive) (pv pmt : Q) (n : positive) (r : Q) :
  0 < r -> 0 <= pv -> 0 <= pmt ->
  fv_meses pv pmt (Pos.to_nat n) r <= fv_arriba d pv pmt n r.
Proof.
  intros Hr Hpv Hpmt. rewrite fv_meses_formula by lra.
  rewrite positive_nat_Z. unfold fv_arriba. cbv zeta.
  assert (Hg : (1 + r) ^ Zpos n <= pot_arriba d (1 + r) n)
    by (apply pot_arriba_cota; lra).
  set (g := (1 + r) ^ Zpos n) in *. set (G := pot_arriba d (1 + r) n) in *.
  assert (Hd : (g - 1) / r <= (G - 1) / r).
  { apply Qle_shift_div_l; [exact Hr|].
    setoid_replace ((g - 1) / r * r) with (g - 1) by (field; lra). lra. }
  nra.
Qed.

Lemma fv_meses_abajo (d : positive) (pv pmt : Q) (n : positive) (r : Q) :
  0 < r -> 0 <= pv -> 0 <= pmt ->
  fv_abajo d pv pmt n r <= fv_meses pv pmt (Pos.to_nat n) r.
Proof.
  intros Hr Hpv Hpmt. rewrite fv_meses_formula by lra.
  rewrite positive_nat_Z. unfold fv_abajo. cbv zeta.
  assert (Hg : pot_abajo d (1 + r) n <= (1 + r) ^ Zpos n)
    by (apply pot_abajo_cota; lra).
  set (g := (1 + r) ^ Zpos n) in *. set (G := pot_abajo d (1 + r) n) in *.
  assert (Hd : (G - 1) / r <= (g - 1) / r).
  { apply Qle_shift_div_l; [exact Hr|].
    setoid_replace ((G - 1) / r * r) with (G - 1) by (field; lra). lra. }
  nra.
Qed.


(** ** The trajectories never decrease for a wealth that is not negative *)

Lemma valor_futuro_mono_anios (pv pmt r : Q) (y y' : Z) :
  0 <= pv -> 0 <= pmt -> 0 <= r -> (0 <= y <= y')%Z ->
  valor_futuro pv pmt y r <= valor_futuro pv pmt y' r.
Proof.
  intros Hpv Hpmt Hr Hy.
  rewrite !valor_futuro_fv_meses by (lia || exact Hr).
  apply fv_meses_mono_n; try assumption.
  - pose proof (tasa_mensual r). lra.
  - lia.
Qed.

Lemma no_decreciente_map_years_axis (f : Z -> Q) (h : Z) :
  (forall y y' : Z, (0 <= y <= y')%Z -> f y <= f y') ->
  no_decreciente (map f (years_axis h)).
Proof.
  intros Hf i j Hij Hj.
  rewrite length_map, years_axis_length in Hj.
  rewrite !nth_map_years_axis by lia.
  apply Hf. lia.
Qed.

(** C7, amended.  For an annual rate, a monthly contribution and an initial
    wealth that are not negative, the projected wealth [serie_mercado] never
    decreases from one year to the next; neither does the ideal path
    [serie_objetivo] when the required rate, if there is one, is not
    negative. *)
Theorem series_no_decrecientes
    (pv ap rate : Q) (cagr : option Q) (objetivo : Q) (h : Z) (st : series) :
  0 <= pv -> 0 <= ap -> 0 <= rate ->
  generar_series pv ap rate cagr objetivo h = Return st ->
  no_decreciente (serie_mercado st)
  /\ ((forall c, cagr = Some c -> 0 <= c) -> no_decreciente (serie_objetivo st)).
Proof.
  intros Hpv Hap Hrate Hst.
  rewrite generar_series_devuelve in Hst.
  injection Hst as <-. cbn [serie_mercado serie_objetivo].
  split.
  - apply no_decreciente_map_years_axis.
    intros y y' Hy. apply valor_futuro_mono_anios; assumption.
  - intro Hc. apply no_decreciente_map_years_axis.
    intros y y' Hy. unfold punto_objetivo.
    destruct cagr as [c|]; [|apply Qle_refl].
    destruct (negb (Qeq_bool c 0)); [|apply Qle_refl].
    apply valor_futuro_mono_anios; try assumption.
    apply Hc. reflexivity.
Qed.

Lemma series_no_decrecientes_witness :
  no_decreciente [valor_futuro 1000 100 0 (6 # 100);
                  valor_futuro 1000 100 1 (6 # 100);
                  valor_futuro 1000 100 2 (6 # 100)]
  /\ ((forall c, @None Q = Some c -> 0 <= c) -> no_decreciente [5000; 5000; 5000]).
Proof.
  apply (series_no_decrecientes 1000 100 (6 # 100) None 5000 2
           (mk_series [valor_futuro 1000 100 0 (6 # 100);
                       valor_futuro 1000 100 1 (6 # 100);
                       valor_futuro 1000 100 2 (6 # 100)]
                      [5000; 5000; 5000]
                      [1000 + 100 * 12 * inject_Z 0;
                       1000 + 100 * 12 * inject_Z 1;
                       1000 + 100 * 12 * inject_Z 2])).
  - discriminate.
  - discriminate.
  - discriminate.
  - apply generar_series_devuelve.
Defined.

(** C7 as stated fails: with a negative initial wealth (the sum of a CSV
    of assets and debts), no contribution and 12 % a year, the projected
    wealth goes from -1000 at year 0 to -1000 * 1.01^12 at year 1. *)
Lemma series_decrecen_con_patrimonio_negativo :
  exists st : series,
    generar_series (- (1000)) 0 (12 # 100) None 0 1 = Return st
    /\ 0 <= 12 # 100
    /\ 0 <= 0
    /\ nth 1 (serie_mercado st) 0 < nth 0 (serie_mercado st) 0
    /\ ~ no_decreciente (serie_mercado st).
Proof.
  eexists. split; [apply generar_series_devuelve|].
  cbn [serie_mercado].
  assert (Hlt : nth 1 (map (fun y => valor_futuro (- (1000)) 0 y (12 # 100)) (years_axis 1)) 0
                < nth 0 (map (fun y => valor_futuro (- (1000)) 0 y (12 # 100)) (years_axis 1)) 0)
    by (vm_compute; reflexivity).
  split; [discriminate|]. split; [discriminate|]. split; [exact Hlt|].
  intro Hmono.
  specialize (Hmono 0%nat 1%nat (Nat.le_succ_diag_r 0) (Nat.lt_succ_diag_r 1)).
  exact (Qlt_not_le _ _ Hlt Hmono).
Qed.

(** ** The payment solve and its round trip *)

Lemma valor_futuro_annuity_factor (pv a : Q) (years : Z) (r : Q) :
  0 <= r ->
  valor_futuro pv a years r
  == pv * (1 + r / 12) ^ (years * 12) + a * annuity_factor (r / 12) (years * 12).
Proof.
  intro Hr. unfold valor_futuro, annuity_factor.
  pose proof (tasa_mensual r) as Hm.
  destruct (Qgt_bool (r / 12) 0) eqn:E.
  - apply Qgt_bool_true in E.
    destruct (Qeq_bool (r / 12) 0) eqn:E0; [|reflexivity].
    apply Qeq_bool_iff in E0. lra.
  - apply Qgt_bool_false in E.
    destruct (Qeq_bool (r / 12) 0) eqn:E0; [reflexivity|].
    apply Qeq_bool_neq in E0. exfalso. apply E0. lra.
Qed.

Lemma annuity_factor_positivo (r : Q) (n : Z) :
  0 <= r -> (0 < n)%Z -> 0 < annuity_factor r n.
Proof.
  intros Hr Hn. unfold annuity_factor.
  destruct (Qeq_bool r 0) eqn:E0.
  - change 0 with (inject_Z 0). rewrite <- Zlt_Qlt. exact Hn.
  - apply Qeq_bool_neq in E0.
    assert (Hr' : 0 < r) by (apply Qle_lteq in Hr; destruct Hr as [H|H];
                             [exact H | exfalso; apply E0; symmetry; exact H]).
    assert (Hg : 1 < (1 + r) ^ n) by (apply Qpower_1_lt; [lra | exact Hn]).
    apply Qlt_shift_div_l; [exact Hr' | lra].
Qed.

(** The closed form solves the equation wherever it returns a number. *)
Lemma npf_pmt_cumple : pmt_solver_ok npf_pmt.
Proof.
  intros rate nper pv fv p H. unfold npf_pmt in H.
  destruct (Qeq_bool (annuity_factor rate nper) 0) eqn:E; [discriminate|].
  apply Qeq_bool_neq in E.
  injection H as <-. unfold annuity_residual.
  field. exact E.
Qed.

(** C2, amended.  For a payment solver that meets its documentation, a
    horizon of at least one year, a fixed annual rate that is not negative
    and a target not below what the present value alone grows to, the
    payment [calcular_aportacion_necesaria] returns, fed back as the monthly
    contribution, gives exactly the target. *)
Theorem aportacion_necesaria_ida_y_vuelta (npf_pmt' : pmt_solver)
    (pv target : Q) (years : Z) (rate a : Q) :
  pmt_solver_ok npf_pmt' ->
  (1 <= years)%Z -> 0 <= rate ->
  pv * (1 + rate / 12) ^ (years * 12) <= target ->
  calcular_aportacion_necesaria npf_pmt' pv target years rate = Return (Some (Num a)) ->
  exists v, calcular_valor_futuro pv a years rate = Return v /\ v == target.
Proof.
  intros Hok Hy Hrate Htarget Hcall.
  rewrite calcular_valor_futuro_devuelve by lia.
  eexists. split; [reflexivity|].
  unfold calcular_aportacion_necesaria in Hcall.
  destruct (npf_pmt' (rate / 12) (years * 12)%Z (- pv) target)
    as [[[p|]|]|e] eqn:Hsolver; cbn in Hcall; try discriminate.
  injection Hcall as <-.
  apply Hok in Hsolver. unfold annuity_residual in Hsolver.
  rewrite valor_futuro_annuity_factor by exact Hrate.
  pose proof (tasa_mensual rate) as Hm.
  assert (Hf : 0 < annuity_factor (rate / 12) (years * 12))
    by (apply annuity_factor_positivo; [lra | lia]).
  set (f := annuity_factor (rate / 12) (years * 12)) in *.
  set (g := (1 + rate / 12) ^ (years * 12)) in *.
  assert (Hp : p <= 0).
  { destruct (Qlt_le_dec 0 p) as [Hpos|Hneg]; [|exact Hneg].
    exfalso. assert (0 < p * f) by nra. lra. }
  rewrite (Qabs_neg p Hp). lra.
Qed.

Lemma aportacion_necesaria_ida_y_vuelta_witness :
  exists v,
    calcular_valor_futuro 100000
      (Qabs (- (900000 + - (100000) * (1 + (7 # 100) / 12) ^ 12)
             / annuity_factor ((7 # 100) / 12) 12))
      1 (7 # 100) = Return v
    /\ v == 900000.
Proof.
  apply (aportacion_necesaria_ida_y_vuelta npf_pmt 100000 900000 1 (7 # 100)).
  - exact npf_pmt_cumple.
  - lia.
  - discriminate.
  - vm_compute. discriminate.
  - vm_compute. reflexivity.
Defined.

(** C2 as stated fails: with 1000000 held, a target of 900000, one year and
    7 % a year the solved cash flow is a withdrawal (the wealth alone grows
    past the target); its absolute value, fed back as a contribution, ends
    above 1200000 instead of at 900000. *)
Lemma aportacion_necesaria_ida_y_vuelta_falla :
  exists a v,
    calcular_aportacion_necesaria npf_pmt 1000000 900000 1 (7 # 100)
      = Return (Some (Num a))
    /\ calcular_valor_futuro 1000000 a 1 (7 # 100) = Return v
    /\ 1200000 < v
    /\ ~ Qabs (v - 900000) <= 1.
Proof.
  exists (Qabs (- (900000 + - (1000000) * (1 + (7 # 100) / 12) ^ 12)
                / annuity_factor ((7 # 100) / 12) 12)).
  eexists. split; [vm_compute; reflexivity|].
  split; [apply calcular_valor_futuro_devuelve; lia|].
  split.
  - vm_compute. reflexivity.
  - apply Qlt_not_le. vm_compute. reflexivity.
Qed.

(** Nor does the round trip hold at a negative rate, where
    [calcular_valor_futuro] adds the contributions without interest while
    the solver compounds them: nothing held, a target of 1200, one year at
    -12 % a year. *)
Lemma aportacion_necesaria_ida_y_vuelta_falla_tasa_negativa :
  exists a v,
    calcular_aportacion_necesaria npf_pmt 0 1200 1 (- (12 # 100))
      = Return (Some (Num a))
    /\ calcular_valor_futuro 0 a 1 (- (12 # 100)) = Return v
    /\ 1260 < v.
Proof.
  exists (Qabs (- (1200 + - 0 * (1 + - (12 # 100) / 12) ^ 12)
                / annuity_factor (- (12 # 100) / 12) 12)).
  eexists. split; [vm_compute; reflexivity|].
  split; [apply calcular_valor_futuro_devuelve; lia|].
  vm_compute. reflexivity.
Qed.

(** ** The rate solve and its round trip *)

Lemma annuity_factor_geom (r : Q) (n : nat) :
  annuity_factor r (Z.of_nat n) == geom (1 + r) n.
Proof.
  unfold annuity_factor. destruct (Qeq_bool r 0) eqn:E.
  - apply Qeq_bool_iff in E. rewrite E.
    setoid_replace (1 + 0) with 1 by ring. symmetry. apply geom_uno.
  - apply Qeq_bool_neq in E. apply anualidad_geom. exact E.
Qed.

(** The residual of the equation at the arguments [calcular_cagr_necesario]
    passes to [npf.rate] is the target minus the future value at the
    monthly rate [m]. *)
Lemma annuity_residual_fv_meses (m : Q) (n : nat) (pmt pv target : Q) :
  annuity_residual m (Z.of_nat n) (- pmt) (- pv) target
  == target - fv_meses pv pmt n m.
Proof.
  unfold annuity_residual, fv_meses. rewrite annuity_factor_geom. ring.
Qed.

(** What [calcular_cagr_necesario] makes of a monthly rate [m]. *)
Lemma cagr_necesario_de_tasa_mensual (npf_rate : rate_solver)
    (pv target : Q) (years : Z) (pmt m : Q) :
  npf_rate (years * 12)%Z (- pmt) (- pv) target = Return (Some (Num m)) ->
  calcular_cagr_necesario npf_rate pv target years pmt
    = Return (Some ((1 + m) ^ 12 - 1)).
Proof.
  intro H. unfold calcular_cagr_necesario. rewrite H. cbn [bind].
  rewrite py_pow_nonneg_exp by lia. reflexivity.
Qed.

(** The annual rate returned is the effective one, [(1 + m)^12 - 1]; divided
    by 12 again by [calcular_valor_futuro] it is at least [m]. *)
Lemma tasa_efectiva_sobre_doce (m : Q) :
  0 <= m -> m <= ((1 + m) ^ 12 - 1) / 12.
Proof.
  intro Hm.
  assert (H : 1 + 12 * m <= (1 + m) ^ 12).
  { change 12%Z with (Z.of_nat 12).
    assert (B : forall n : nat, 1 + inject_Z (Z.of_nat n) * m <= (1 + m) ^ Z.of_nat n).
    { induction n as [|n IH].
      - change (inject_Z (Z.of_nat 0)) with 0.
        change ((1 + m) ^ Z.of_nat 0) with 1. lra.
      - rewrite Qpower_nat_succ, Nat2Z.inj_succ. unfold Z.succ.
        rewrite inject_Z_plus. change (inject_Z 1) with 1.
        assert (0 <= inject_Z (Z.of_nat n)).
        { change 0 with (inject_Z 0). rewrite <- Zle_Qle. lia. }
        nra. }
    exact (B 12%nat). }
  rewrite (tasa_mensual ((1 + m) ^ 12 - 1)). lra.
Qed.

Lemma tasa_efectiva_mono (lo m : Q) :
  0 <= lo -> lo <= m -> ((1 + lo) ^ 12 - 1) / 12 <= ((1 + m) ^ 12 - 1) / 12.
Proof.
  intros Hlo Hm.
  assert (H : (1 + lo) ^ Z.of_nat 12 <= (1 + m) ^ Z.of_nat 12)
    by (apply Qpower_nat_mono; lra).
  change (Z.of_nat 12) with 12%Z in H.
  rewrite (tasa_mensual ((1 + lo) ^ 12 - 1)), (tasa_mensual ((1 + m) ^ 12 - 1)).
  lra.
Qed.

(** Fed the annual rate made of the monthly rate [m],
    [calcular_valor_futuro] returns at least the future value at the
    monthly rate [m] itself. *)
Lemma ida_y_vuelta_no_baja (pv pmt : Q) (years : Z) (m : Q) :
  0 <= pv -> 0 <= pmt -> (0 <= years)%Z -> 0 <= m ->
  fv_meses pv pmt (Z.to_nat (years * 12)) m
  <= valor_futuro pv pmt years ((1 + m) ^ 12 - 1).
Proof.
  intros Hpv Hpmt Hy Hm.
  pose proof (tasa_efectiva_sobre_doce m Hm) as H12.
  assert (Ha : 0 <= (1 + m) ^ 12 - 1).
  { rewrite (tasa_mensual ((1 + m) ^ 12 - 1)) in H12. lra. }
  rewrite valor_futuro_fv_meses by assumption.
  apply fv_meses_mono_r; assumption.
Qed.

(** The residual of a monthly rate, bounded through the rounded powers. *)
Lemma residuo_acotado (d : positive) (m : Q) (n : positive) (pmt pv target tol : Q) :
  0 < m -> 0 <= pv -> 0 <= pmt ->
  target - tol <= fv_abajo d pv pmt n m ->
  fv_arriba d pv pmt n m <= target + tol ->
  Qabs (annuity_residual m (Zpos n) (- pmt) (- pv) target) <= tol.
Proof.
  intros Hm Hpv Hpmt Hlo Hhi.
  rewrite <- (positive_nat_Z n), annuity_residual_fv_meses.
  pose proof (fv_meses_abajo d pv pmt n m Hm Hpv Hpmt).
  pose proof (fv_meses_arriba d pv pmt n m Hm Hpv Hpmt).
  apply Qabs_Qle_condition. split; lra.
Qed.

(** C1, on the specification's own example (100000 held, 1000 a month, 20
    years, target 900000).  Whatever monthly rate [m >= 0] the solver
    returns that solves the annuity equation within one euro,
    [calcular_cagr_necesario] returns the annual rate [(1 + m)^12 - 1], and
    [calcular_valor_futuro], which divides that rate by 12 again, returns
    more than 930000: the round trip misses the target by over 30000. *)
Theorem cagr_necesario_ida_y_vuelta_ejemplo (npf_rate : rate_solver) (m : Q) :
  npf_rate 240%Z (- (1000)) (- (100000)) 900000 = Return (Some (Num m)) ->
  0 <= m ->
  Qabs (annuity_residual m 240 (- (1000)) (- (100000)) 900000) <= 1 ->
  exists annual v,
    calcular_cagr_necesario npf_rate 100000 900000 20 1000 = Return (Some annual)
    /\ calcular_valor_futuro 100000 1000 20 annual = Return v
    /\ 930000 < v.
Proof.
  intros Hsolver Hm Hres.
  exists ((1 + m) ^ 12 - 1). eexists.
  split; [apply cagr_necesario_de_tasa_mensual; exact Hsolver|].
  split; [apply calcular_valor_futuro_devuelve; lia|].
  (* the solver's rate is above 0.5687 % a month *)
  change 240%Z with (Z.of_nat 240) in Hres.
  rewrite annuity_residual_fv_meses in Hres.
  apply Qabs_Qle_condition in Hres. destruct Hres as [_ Hres].
  set (lo := 5687 # 1000000).
  assert (Hlo : fv_meses 100000 1000 240 lo < 899999).
  { apply (Qle_lt_trans _ (fv_arriba 1000000000000 100000 1000 240 lo)).
    - apply (fv_meses_arriba 1000000000000 100000 1000 240 lo);
        [reflexivity | discriminate | discriminate].
    - vm_compute. reflexivity. }
  assert (Hlom : lo <= m).
  { destruct (Qlt_le_dec m lo) as [Hlt|Hle]; [exfalso|exact Hle].
    assert (fv_meses 100000 1000 240 m <= fv_meses 100000 1000 240 lo)
      by (apply fv_meses_mono_r; [discriminate | discriminate | exact Hm | lra]).
    lra. }
  (* so the annual rate, over 12, is above 0.58682 % a month *)
  set (r2 := 58682 # 10000000).
  assert (Hr2 : r2 <= ((1 + lo) ^ 12 - 1) / 12) by (vm_compute; discriminate).
  assert (Hr2m : r2 <= ((1 + m) ^ 12 - 1) / 12).
  { apply (Qle_trans _ _ _ Hr2). apply tasa_efectiva_mono; [discriminate | exact Hlom]. }
  assert (Hv : 930000 < fv_meses 100000 1000 240 r2).
  { apply (Qlt_le_trans _ (fv_abajo 1000000000000 100000 1000 240 r2)).
    - vm_compute. reflexivity.
    - apply (fv_meses_abajo 1000000000000 100000 1000 240 r2);
        [reflexivity | discriminate | discriminate]. }
  assert (Ha : 0 <= (1 + m) ^ 12 - 1).
  { rewrite (tasa_mensual ((1 + m) ^ 12 - 1)) in Hr2m.
    assert (0 <= r2) by discriminate. lra. }
  rewrite valor_futuro_fv_meses by (lia || exact Ha).
  change (Z.to_nat (20 * 12)) with 240%nat.
  apply (Qlt_le_trans _ _ _ Hv).
  apply fv_meses_mono_r; [discriminate | discriminate | discriminate | exact Hr2m].
Qed.

Lemma cagr_necesario_ida_y_vuelta_ejemplo_witness :
  exists annual v,
    calcular_cagr_necesario (npf_rate_answering (113743 # 20000000))
      100000 900000 20 1000 = Return (Some annual)
    /\ calcular_valor_futuro 100000 1000 20 annual = Return v
    /\ 930000 < v.
Proof.
  apply (cagr_necesario_ida_y_vuelta_ejemplo
           (npf_rate_answering (113743 # 20000000)) (113743 # 20000000)).
  - reflexivity.
  - discriminate.
  - apply (residuo_acotado 1000000000000 (113743 # 20000000) 240 1000 100000 900000 1);
      [reflexivity | discriminate | discriminate
       | vm_compute; discriminate | vm_compute; discriminate].
Defined.

(** ** The savings gap of [main] *)

(** What [main] computes, for every horizon from zero up and whatever the
    solvers do: the two wrappers catch what the solvers raise. *)
Lemma main_calculos_resumen (npf_rate : rate_solver) (npf_pmt' : pmt_solver)
    (pv gasto tasa : Q) (h : Z) (ap ref : Q) :
  ~ tasa == 0 -> (0 <= h)%Z ->
  exists res,
    main_calculos npf_rate npf_pmt' pv gasto tasa h ap ref = Return res
    /\ calcular_aportacion_necesaria npf_pmt' pv (res_objetivo res) h (ref / 100)
       = Return (res_ahorro_necesario_mensual res)
    /\ res_objetivo res = gasto * 12 / (tasa / 100)
    /\ res_gap_ahorro res = gap_ahorro (res_ahorro_necesario_mensual res) ap.
Proof.
  intros Htasa Hh. unfold main_calculos, objetivo_patrimonial.
  rewrite py_div_nonzero.
  2:{ intro E. apply Htasa. rewrite <- (Qmult_div_r tasa 100) by discriminate.
      rewrite E. reflexivity. }
  cbn [bind].
  destruct (cagr_necesario_devuelve npf_rate pv (gasto * 12 / (tasa / 100)) h ap)
    as [cagr ->].
  cbn [bind].
  assert (Hpmt : exists a, calcular_aportacion_necesaria npf_pmt' pv
                             (gasto * 12 / (tasa / 100)) h (ref / 100) = Return a).
  { unfold calcular_aportacion_necesaria.
    destruct (npf_pmt' _ _ _ _) as [[[p|]|]|e]; cbn; eexists; reflexivity. }
  destruct Hpmt as [a Ha]. rewrite Ha. cbn [bind].
  rewrite calcular_valor_futuro_devuelve by exact Hh. cbn [bind].
  rewrite generar_series_devuelve. cbn [bind].
  eexists. split; [reflexivity|].
  cbn [res_objetivo res_ahorro_necesario_mensual res_gap_ahorro].
  repeat split. exact Ha.
Qed.

(** C8, at the input where the code departs from it: 900000 held, 3000 a
    month wanted at 4 % (target 900000), 20 years, 1000 a month saved, a
    reference rate of 0 %.  The required payment is the number 0, and the
    gap [main] reports is 0, not [0 - 1000]. *)
Theorem gap_ahorro_con_aportacion_cero (npf_rate : rate_solver) :
  exists res a,
    main_calculos npf_rate npf_pmt 900000 3000 4 20 1000 0 = Return res
    /\ res_ahorro_necesario_mensual res = Some (Num a)
    /\ a == 0
    /\ res_gap_ahorro res = Num 0
    /\ ~ 0 == a - 1000.
Proof.
  destruct (main_calculos_resumen npf_rate npf_pmt 900000 3000 4 20 1000 0)
    as [res [Hres [Hpmt [Hobj Hgap]]]]; [discriminate | lia |].
  rewrite Hobj in Hpmt.
  assert (Ha : exists a,
             calcular_aportacion_necesaria npf_pmt 900000 (3000 * 12 / (4 / 100)) 20 (0 / 100)
             = Return (Some (Num a)) /\ a == 0).
  { eexists. split; [vm_compute; reflexivity | reflexivity]. }
  destruct Ha as [a [Ha Ha0]].
  rewrite Ha in Hpmt. injection Hpmt as Hpmt.
  exists res, a. split; [exact Hres|]. split; [symmetry; exact Hpmt|].
  split; [exact Ha0|]. split.
  - rewrite Hgap, <- Hpmt. apply gap_ahorro_cero. exact Ha0.
  - rewrite Ha0. discriminate.
Qed.

(** ** Only a zero rate survives the round trip *)

Lemma Qpower_nat_mono_estricto (x y : Q) (n : nat) :
  0 <= x -> x < y -> x ^ Z.of_nat (S n) < y ^ Z.of_nat (S n).
Proof.
  intros Hx Hxy. induction n as [|n IH].
  - change (Z.of_nat 1) with 1%Z. rewrite !Qpower_1_r. exact Hxy.
  - rewrite (Qpower_nat_succ x (S n)), (Qpower_nat_succ y (S n)).
    pose proof (Qpower_nat_nonneg x (S n) Hx) as Hp.
    nra.
Qed.

Lemma tasa_efectiva_sobre_doce_estricta (m : Q) :
  0 < m -> m < ((1 + m) ^ 12 - 1) / 12.
Proof.
  intro Hm.
  assert (H10 : 10 * m <= ((1 + m) ^ 10 - 1)).
  { assert (B : forall n : nat, 1 + inject_Z (Z.of_nat n) * m <= (1 + m) ^ Z.of_nat n).
    { induction n as [|n IH].
      - change (inject_Z (Z.of_nat 0)) with 0.
        change ((1 + m) ^ Z.of_nat 0) with 1. lra.
      - rewrite Qpower_nat_succ, Nat2Z.inj_succ. unfold Z.succ.
        rewrite inject_Z_plus. change (inject_Z 1) with 1.
        assert (0 <= inject_Z (Z.of_nat n)).
        { change 0 with (inject_Z 0). rewrite <- Zle_Qle. lia. }
        nra. }
    pose proof (B 10%nat) as B10.
    change (Z.of_nat 10) with 10%Z in B10. change (inject_Z 10) with 10 in B10. lra. }
  assert (H12 : (1 + m) ^ 12 == (1 + m) * ((1 + m) * (1 + m) ^ 10)).
  { change 12%Z with (Z.of_nat 12).
    rewrite (Qpower_nat_succ (1 + m) 11), (Qpower_nat_succ (1 + m) 10).
    reflexivity. }
  rewrite (tasa_mensual ((1 + m) ^ 12 - 1)), H12.
  nra.
Qed.

Lemma fv_meses_mono_r_estricto (pv pmt : Q) (n : nat) (r r' : Q) :
  0 < pv -> 0 <= pmt -> 0 <= r -> r < r' ->
  fv_meses pv pmt (S n) r < fv_meses pv pmt (S n) r'.
Proof.
  intros Hpv Hpmt Hr Hrr. unfold fv_meses.
  assert (H1 : (1 + r) ^ Z.of_nat (S n) < (1 + r') ^ Z.of_nat (S n)).
  { apply Qpower_nat_mono_estricto; lra. }
  assert (H2 : geom (1 + r) (S n) <= geom (1 + r') (S n)).
  { apply geom_mono_base; lra. }
  nra.
Qed.

(** X1. With something held, a horizon of at least a year and a solver that
    returns an exact positive monthly root [m] of the annuity equation,
    the future value at the annual rate [calcular_cagr_necesario] returns
    is strictly above the target. *)
Theorem cagr_necesario_ida_y_vuelta_excede (npf_rate : rate_solver)
    (pv target : Q) (years : Z) (pmt m : Q) :
  0 < pv -> 0 <= pmt -> (1 <= years)%Z -> 0 < m ->
  npf_rate (years * 12)%Z (- pmt) (- pv) target = Return (Some (Num m)) ->
  annuity_residual m (years * 12) (- pmt) (- pv) target == 0 ->
  exists annual v,
    calcular_cagr_necesario npf_rate pv target years pmt = Return (Some annual)
    /\ calcular_valor_futuro pv pmt years annual = Return v
    /\ target < v.
Proof.
  intros Hpv Hpmt Hy Hm Hsolver Hres.
  exists ((1 + m) ^ 12 - 1). eexists.
  split; [apply cagr_necesario_de_tasa_mensual; exact Hsolver|].
  split; [apply calcular_valor_futuro_devuelve; lia|].
  pose proof (tasa_efectiva_sobre_doce_estricta m Hm) as H12.
  assert (Ha : 0 <= (1 + m) ^ 12 - 1).
  { rewrite (tasa_mensual ((1 + m) ^ 12 - 1)) in H12. lra. }
  rewrite valor_futuro_fv_meses by (lia || exact Ha).
  rewrite <- (Z2Nat.id (years * 12)) in Hres by lia.
  rewrite annuity_residual_fv_meses in Hres.
  destruct (Z.to_nat (years * 12)) as [|n] eqn:En; [lia|].
  assert (target == fv_meses pv pmt (S n) m) by lra.
  assert (fv_meses pv pmt (S n) m < fv_meses pv pmt (S n) (((1 + m) ^ 12 - 1) / 12))
    by (apply fv_meses_mono_r_estricto; try assumption; lra).
  lra.
Qed.

Lemma cagr_necesario_ida_y_vuelta_excede_witness :
  exists annual v,
    calcular_cagr_necesario (npf_rate_answering 1) 100 409600 1 0 = Return (Some annual)
    /\ calcular_valor_futuro 100 0 1 annual = Return v
    /\ 409600 < v.
Proof.
  apply (cagr_necesario_ida_y_vuelta_excede (npf_rate_answering 1) 100 409600 1 0 1).
  - reflexivity.
  - discriminate.
  - lia.
  - reflexivity.
  - reflexivity.
  - reflexivity.
Defined.

(** ** The payment wrapper raises nothing either *)

(** X2. [calcular_aportacion_necesaria] raises nothing, whatever [npf.pmt]
    does: the sentinel [None] when the solver raises or returns [None]
    (whose [abs] raises), the absolute value of the float otherwise. *)
Theorem aportacion_necesaria_nunca_lanza (npf_pmt' : pmt_solver)
    (pv target : Q) (years : Z) (rate : Q) :
  exists r : option pyfloat,
    calcular_aportacion_necesaria npf_pmt' pv target years rate = Return r
    /\ match npf_pmt' (rate / 12) (years * 12)%Z (- pv) target with
       | Return (Some (Num p)) => r = Some (Num (Qabs p))
       | Return (Some NaN) => r = Some NaN
       | Return None => r = None
       | Raise _ => r = None
       end.
Proof.
  unfold calcular_aportacion_necesaria.
  destruct (npf_pmt' (rate / 12) (years * 12)%Z (- pv) target) as [[[p|]|]|e];
    cbn; eexists; split; reflexivity.
Qed.

Lemma gap_ahorro_diferencia_witness :
  gap_ahorro (Some (Num 1500)) 1000 = Num (1500 - 1000).
Proof.
  apply (gap_ahorro_diferencia 1500 1000). discriminate.
Defined.

(** X4. For a withdrawal rate other than zero and a horizon that is not
    negative, the calculations of [main] raise nothing, whatever the two
    solvers do. *)
Theorem main_calculos_devuelve (npf_rate : rate_solver) (npf_pmt' : pmt_solver)
    (pv gasto tasa : Q) (h : Z) (ap ref : Q) :
  ~ tasa == 0 -> (0 <= h)%Z ->
  exists res,
    main_calculos npf_rate npf_pmt' pv gasto tasa h ap ref = Return res
    /\ res_gap_ahorro res = gap_ahorro (res_ahorro_necesario_mensual res) ap.
Proof.
  intros Htasa Hh.
  destruct (main_calculos_resumen npf_rate npf_pmt' pv gasto tasa h ap ref Htasa Hh)
    as [res [Hres [_ [_ Hgap]]]].
  exists res. split; assumption.
Qed.

Lemma main_calculos_devuelve_witness :
  exists res,
    main_calculos (npf_rate_answering (113743 # 20000000)) npf_pmt
      100000 3000 4 20 1000 7 = Return res
    /\ res_gap_ahorro res = gap_ahorro (res_ahorro_necesario_mensual res) 1000.
Proof.
  apply (main_calculos_devuelve (npf_rate_answering (113743 # 20000000)) npf_pmt
           100000 3000 4 20 1000 7).
  - discriminate.
  - lia.
Defined.

(** ** More on [calcular_valor_futuro] *)



Lemma geom_suma (x : Q) (n m : nat) :
  geom x (n + m) == geom x n * x ^ Z.of_nat m + geom x m.
Proof.
  induction n as [|n IH].
  - cbn [Nat.add geom]. ring.
  - cbn [Nat.add geom]. rewrite IH.
    pose proof (geom_succ_r x m) as H. cbn [geom] in H.
    setoid_replace (1 + x * (geom x n * x ^ Z.of_nat m + geom x m))
      with (x * geom x n * x ^ Z.of_nat m + (1 + x * geom x m)) by ring.
    rewrite H. ring.
Qed.

Lemma fv_meses_suma (pv pmt : Q) (n m : nat) (r : Q) :
  fv_meses pv pmt (n + m) r == fv_meses (fv_meses pv pmt n r) pmt m r.
Proof.
  unfold fv_meses. rewrite geom_suma.
  destruct (Nat.eq_dec (n + m) 0) as [E|E].
  - assert (n = 0%nat) by lia. assert (m = 0%nat) by lia. subst.
    change (Z.of_nat (0 + 0)) with 0%Z. change (Z.of_nat 0) with 0%Z.
    cbn [geom]. change ((1 + r) ^ 0) with 1. ring.
  - rewrite Nat2Z.inj_add, Qpower_plus' by lia. ring.
Qed.

(** X6. For a rate that is not negative, projecting [y1 + y2] years is
    projecting [y1] years and then [y2] more years from the wealth reached,
    with the same contribution. *)
Theorem valor_futuro_por_tramos (pv pmt : Q) (y1 y2 : Z) (r : Q) :
  0 <= r -> (0 <= y1)%Z -> (0 <= y2)%Z ->
  exists v1 v2 v,
    calcular_valor_futuro pv pmt y1 r = Return v1
    /\ calcular_valor_futuro v1 pmt y2 r = Return v2
    /\ calcular_valor_futuro pv pmt (y1 + y2) r = Return v
    /\ v2 == v.
Proof.
  intros Hr H1 H2.
  exists (valor_futuro pv pmt y1 r), (valor_futuro (valor_futuro pv pmt y1 r) pmt y2 r),
         (valor_futuro pv pmt (y1 + y2) r).
  repeat split; try (apply calcular_valor_futuro_devuelve; lia).
  rewrite (valor_futuro_fv_meses (valor_futuro pv pmt y1 r)) by assumption.
  rewrite (valor_futuro_fv_meses pv pmt y1) by assumption.
  rewrite (valor_futuro_fv_meses pv pmt (y1 + y2)) by (lia || assumption).
  replace (Z.to_nat ((y1 + y2) * 12)) with (Z.to_nat (y1 * 12) + Z.to_nat (y2 * 12))%nat
    by lia.
  symmetry. apply fv_meses_suma.
Qed.

Lemma valor_futuro_por_tramos_witness :
  exists v1 v2 v,
    calcular_valor_futuro 1000 100 1 (6 # 100) = Return v1
    /\ calcular_valor_futuro v1 100 2 (6 # 100) = Return v2
    /\ calcular_valor_futuro 1000 100 (1 + 2) (6 # 100) = Return v
    /\ v2 == v.
Proof.
  apply (valor_futuro_por_tramos 1000 100 1 2 (6 # 100)); [discriminate | lia | lia].
Defined.

(** At a negative rate the projection by stretches differs from the direct
    one: the contributions of the first stretch are compounded in the
    second, but not in the direct projection. *)
Lemma valor_futuro_por_tramos_falla_tasa_negativa :
  exists v1 v2 v,
    calcular_valor_futuro 0 100 1 (- (12 # 100)) = Return v1
    /\ calcular_valor_futuro v1 100 1 (- (12 # 100)) = Return v2
    /\ calcular_valor_futuro 0 100 (1 + 1) (- (12 # 100)) = Return v
    /\ v2 < v.
Proof.
  exists (valor_futuro 0 100 1 (- (12 # 100))),
         (valor_futuro (valor_futuro 0 100 1 (- (12 # 100))) 100 1 (- (12 # 100))),
         (valor_futuro 0 100 (1 + 1) (- (12 # 100))).
  repeat split; try (apply calcular_valor_futuro_devuelve; lia).
Qed.

(** X7. The future value is linear in the pair (present value, monthly
    contribution): the projection of a weighted sum of two plans is the
    weighted sum of their projections, at any rate. *)
Theorem valor_futuro_lineal (a b pv1 pmt1 pv2 pmt2 : Q) (years : Z) (r : Q) :
  (0 <= years)%Z ->
  exists v v1 v2,
    calcular_valor_futuro (a * pv1 + b * pv2) (a * pmt1 + b * pmt2) years r = Return v
    /\ calcular_valor_futuro pv1 pmt1 years r = Return v1
    /\ calcular_valor_futuro pv2 pmt2 years r = Return v2
    /\ v == a * v1 + b * v2.
Proof.
  intro Hy.
  exists (valor_futuro (a * pv1 + b * pv2) (a * pmt1 + b * pmt2) years r),
         (valor_futuro pv1 pmt1 years r), (valor_futuro pv2 pmt2 years r).
  repeat split; try (apply calcular_valor_futuro_devuelve; exact Hy).
  unfold valor_futuro. destruct (Qgt_bool (r / 12) 0); ring.
Qed.

Lemma valor_futuro_lineal_witness :
  exists v v1 v2,
    calcular_valor_futuro (2 * 1000 + 3 * 500) (2 * 100 + 3 * 50) 10 (6 # 100) = Return v
    /\ calcular_valor_futuro 1000 100 10 (6 # 100) = Return v1
    /\ calcular_valor_futuro 500 50 10 (6 # 100) = Return v2
    /\ v == 2 * v1 + 3 * v2.
Proof.
  apply (valor_futuro_lineal 2 3 1000 100 500 50 10 (6 # 100)). lia.
Defined.

(** ** Investing against saving in cash *)





(** ** The annual rate [calcular_cagr_necesario] returns *)

Lemma potencia_doce_no_negativa (x : Q) : 0 <= x ^ 12.
Proof.
  change 12%Z with (6 * 2)%Z. rewrite Qpower_mult. apply Qsqr_nonneg.
Qed.

(** X9. The annual rate [calcular_cagr_necesario] makes of a monthly rate
    [m] is never below -1 (-100 %), and for [m >= 0] it is at least
    [12 * m]: the effective annual rate, not the nominal one. *)
Theorem cagr_necesario_cotas (npf_rate : rate_solver)
    (pv target : Q) (years : Z) (pmt m : Q) :
  npf_rate (years * 12)%Z (- pmt) (- pv) target = Return (Some (Num m)) ->
  exists annual,
    calcular_cagr_necesario npf_rate pv target years pmt = Return (Some annual)
    /\ - (1) <= annual
    /\ (0 <= m -> 12 * m <= annual).
Proof.
  intro H. exists ((1 + m) ^ 12 - 1).
  split; [apply cagr_necesario_de_tasa_mensual; exact H|].
  split.
  - pose proof (potencia_doce_no_negativa (1 + m)). lra.
  - intro Hm. pose proof (tasa_efectiva_sobre_doce m Hm) as H12.
    rewrite (tasa_mensual ((1 + m) ^ 12 - 1)) in H12. lra.
Qed.

Lemma cagr_necesario_cotas_witness :
  exists annual,
    calcular_cagr_necesario (npf_rate_answering (1 # 100)) 1000 2000 5 10
      = Return (Some annual)
    /\ - (1) <= annual
    /\ (0 <= 1 # 100 -> 12 * (1 # 100) <= annual).
Proof.
  apply (cagr_necesario_cotas (npf_rate_answering (1 # 100)) 1000 2000 5 10 (1 # 100)).
  reflexivity.
Defined.

(** ** The target wealth *)

(** X10. The target wealth is undefined ([ZeroDivisionError]) for a zero
    withdrawal rate; otherwise withdrawing that rate from the target every
    year pays exactly the desired monthly spending. *)
Theorem objetivo_patrimonial_retirada (gasto tasa : Q) :
  (tasa == 0 -> objetivo_patrimonial gasto tasa = Raise ZeroDivisionError)
  /\ (~ tasa == 0 ->
      exists objetivo,
        objetivo_patrimonial gasto tasa = Return objetivo
        /\ objetivo * (tasa / 100) / 12 == gasto).
Proof.
  unfold objetivo_patrimonial, py_div. split.
  - intro H.
    assert (E : Qeq_bool (tasa / 100) 0 = true)
      by (apply Qeq_bool_iff; rewrite H; reflexivity).
    rewrite E. reflexivity.
  - intro H.
    assert (Hd : ~ tasa / 100 == 0).
    { intro E. apply H. rewrite <- (Qmult_div_r tasa 100) by discriminate.
      rewrite E. reflexivity. }
    destruct (Qeq_bool (tasa / 100) 0) eqn:E;
      [apply Qeq_bool_iff in E; contradiction|].
    eexists. split; [reflexivity|]. field. exact H.
Qed.

Lemma objetivo_patrimonial_retirada_witness :
  objetivo_patrimonial 3000 0 = Raise ZeroDivisionError
  /\ exists objetivo,
       objetivo_patrimonial 3000 4 = Return objetivo
       /\ objetivo * (4 / 100) / 12 == 3000.
Proof.
  split.
  - apply (objetivo_patrimonial_retirada 3000 0). reflexivity.
  - apply (objetivo_patrimonial_retirada 3000 4). discriminate.
Defined.

(** ** What [main] shows: the series, the cards and the report *)

Lemma tasa_de_referencia (ref : Q) : ref / 100 == ref * (1 # 100).
Proof. reflexivity. Qed.

(** The summary [main] computes, field by field. *)
Lemma main_calculos_detalle (npf_rate : rate_solver) (npf_pmt' : pmt_solver)
    (pv gasto tasa : Q) (h : Z) (ap ref : Q) :
  ~ tasa == 0 -> (0 <= h)%Z ->
  exists cagr ahorro,
    calcular_cagr_necesario npf_rate pv (gasto * 12 / (tasa / 100)) h ap = Return cagr
    /\ calcular_aportacion_necesaria npf_pmt' pv (gasto * 12 / (tasa / 100)) h (ref / 100)
       = Return ahorro
    /\ main_calculos npf_rate npf_pmt' pv gasto tasa h ap ref
       = Return (mk_resumen (gasto * 12 / (tasa / 100)) cagr ahorro
                   (gap_ahorro ahorro ap)
                   (valor_futuro pv ap h (ref / 100))
                   (mk_series
                      (map (fun y => valor_futuro pv ap y (ref / 100)) (years_axis h))
                      (map (punto_objetivo pv ap cagr (gasto * 12 / (tasa / 100)))
                         (years_axis h))
                      (map (fun y => pv + ap * 12 * inject_Z y) (years_axis h)))).
Proof.
  intros Htasa Hh. unfold main_calculos, objetivo_patrimonial.
  rewrite py_div_nonzero.
  2:{ intro E. apply Htasa. rewrite <- (Qmult_div_r tasa 100) by discriminate.
      rewrite E. reflexivity. }
  cbn [bind].
  destruct (cagr_necesario_devuelve npf_rate pv (gasto * 12 / (tasa / 100)) h ap)
    as [cagr Hcagr].
  assert (Hpmt : exists a, calcular_aportacion_necesaria npf_pmt' pv
                             (gasto * 12 / (tasa / 100)) h (ref / 100) = Return a).
  { unfold calcular_aportacion_necesaria.
    destruct (npf_pmt' _ _ _ _) as [[[p|]|]|e]; cbn; eexists; reflexivity. }
  destruct Hpmt as [a Ha].
  exists cagr, a. split; [exact Hcagr|]. split; [exact Ha|].
  rewrite Hcagr, Ha. cbn [bind].
  rewrite calcular_valor_futuro_devuelve by exact Hh. cbn [bind].
  rewrite generar_series_devuelve. reflexivity.
Qed.

Lemma valor_futuro_anio_cero (pv pmt r : Q) : valor_futuro pv pmt 0 r == pv.
Proof.
  unfold valor_futuro. change (0 * 12)%Z with 0%Z.
  change ((1 + r / 12) ^ 0) with 1.
  destruct (Qgt_bool (r / 12) 0).
  - unfold Qminus. setoid_replace (1 + - (1)) with 0 by ring.
    unfold Qdiv. ring.
  - change (inject_Z 0) with 0. ring.
Qed.

(** X11. In the summary of [main], the projected series and the cash
    series both start at the current wealth, and the last point of the
    projected series is the final projection shown in the third card. *)
Theorem main_series_extremos (npf_rate : rate_solver) (npf_pmt' : pmt_solver)
    (pv gasto tasa : Q) (h : Z) (ap ref : Q) :
  ~ tasa == 0 -> (0 <= h)%Z ->
  exists res,
    main_calculos npf_rate npf_pmt' pv gasto tasa h ap ref = Return res
    /\ nth 0 (serie_mercado (res_series res)) 0 == pv
    /\ nth 0 (serie_cash (res_series res)) 0 == pv
    /\ nth (Z.to_nat h) (serie_mercado (res_series res)) 0 = res_final_con_ref res.
Proof.
  intros Htasa Hh.
  destruct (main_calculos_detalle npf_rate npf_pmt' pv gasto tasa h ap ref Htasa Hh)
    as [cagr [ahorro [_ [_ Hres]]]].
  eexists. split; [exact Hres|].
  cbn [res_series res_final_con_ref serie_mercado serie_cash].
  rewrite !nth_map_years_axis by lia.
  split; [apply valor_futuro_anio_cero|].
  split.
  - change (inject_Z (Z.of_nat 0)) with 0. ring.
  - rewrite Z2Nat.id by exact Hh. reflexivity.
Qed.

Lemma main_series_extremos_witness :
  exists res,
    main_calculos (npf_rate_answering (1 # 100)) npf_pmt 100000 3000 4 2 1000 7
      = Return res
    /\ nth 0 (serie_mercado (res_series res)) 0 == 100000
    /\ nth 0 (serie_cash (res_series res)) 0 == 100000
    /\ nth (Z.to_nat 2) (serie_mercado (res_series res)) 0 = res_final_con_ref res.
Proof.
  apply (main_series_extremos (npf_rate_answering (1 # 100)) npf_pmt
           100000 3000 4 2 1000 7).
  - discriminate.
  - lia.
Defined.

(** The payment returned, fed back, reaches the target (the core of the
    round trip of the payment solve). *)
Lemma aportacion_necesaria_alcanza (npf_pmt' : pmt_solver)
    (pv target : Q) (years : Z) (rate a : Q) :
  pmt_solver_ok npf_pmt' ->
  (1 <= years)%Z -> 0 <= rate ->
  pv * (1 + rate / 12) ^ (years * 12) <= target ->
  calcular_aportacion_necesaria npf_pmt' pv target years rate = Return (Some (Num a)) ->
  valor_futuro pv a years rate == target.
Proof.
  intros Hok Hy Hrate Htarget Hcall.
  unfold calcular_aportacion_necesaria in Hcall.
  destruct (npf_pmt' (rate / 12) (years * 12)%Z (- pv) target)
    as [[[p|]|]|e] eqn:Hsolver; cbn in Hcall; try discriminate.
  injection Hcall as <-.
  apply Hok in Hsolver. unfold annuity_residual in Hsolver.
  rewrite valor_futuro_annuity_factor by exact Hrate.
  pose proof (tasa_mensual rate) as Hm.
  assert (Hf : 0 < annuity_factor (rate / 12) (years * 12))
    by (apply annuity_factor_positivo; [lra | lia]).
  set (f := annuity_factor (rate / 12) (years * 12)) in *.
  set (g := (1 + rate / 12) ^ (years * 12)) in *.
  assert (Hp : p <= 0).
  { destruct (Qlt_le_dec 0 p) as [Hpos|Hneg]; [|exact Hneg].
    exfalso. assert (0 < p * f) by nra. lra. }
  rewrite (Qabs_neg p Hp). lra.
Qed.

(** X12. The second and the third card agree.  For a payment solver that
    meets its documentation, a horizon of at least one year, a reference
    rate that is not negative and a target not below what the wealth alone
    grows to: the deficit of the third card is the current contribution
    minus the required one, times the (positive) annuity factor; so the
    projection falls short of the target exactly when less is saved than
    required. *)
Theorem deficit_segun_aportacion (npf_rate : rate_solver) (npf_pmt' : pmt_solver)
    (pv gasto tasa : Q) (h : Z) (ap ref a : Q) (res : resumen) :
  pmt_solver_ok npf_pmt' ->
  ~ tasa == 0 -> (1 <= h)%Z -> 0 <= ref ->
  main_calculos npf_rate npf_pmt' pv gasto tasa h ap ref = Return res ->
  res_ahorro_necesario_mensual res = Some (Num a) ->
  pv * (1 + ref / 100 / 12) ^ (h * 12) <= res_objetivo res ->
  deficit (res_final_con_ref res) (res_objetivo res)
    == (ap - a) * annuity_factor (ref / 100 / 12) (h * 12)
  /\ (deficit (res_final_con_ref res) (res_objetivo res) < 0 <-> ap < a).
Proof.
  intros Hok Htasa Hh Href Hmain Hahorro Hobj.
  destruct (main_calculos_detalle npf_rate npf_pmt' pv gasto tasa h ap ref Htasa)
    as [cagr [ahorro [_ [Hpmt Hres]]]]; [lia|].
  rewrite Hres in Hmain. injection Hmain as <-.
  cbn [res_ahorro_necesario_mensual res_objetivo res_final_con_ref] in *.
  subst ahorro.
  pose proof (tasa_de_referencia ref) as Hr100.
  assert (Hrate : 0 <= ref / 100) by lra.
  pose proof (aportacion_necesaria_alcanza npf_pmt' pv _ h (ref / 100) a
                Hok Hh Hrate Hobj Hpmt) as Halc.
  rewrite valor_futuro_annuity_factor in Halc by exact Hrate.
  pose proof (tasa_mensual (ref / 100)) as Hm.
  assert (Hf : 0 < annuity_factor (ref / 100 / 12) (h * 12))
    by (apply annuity_factor_positivo; [lra | lia]).
  unfold deficit. rewrite valor_futuro_annuity_factor by exact Hrate.
  set (f := annuity_factor (ref / 100 / 12) (h * 12)) in *.
  set (g := (1 + ref / 100 / 12) ^ (h * 12)) in *.
  set (objetivo := gasto * 12 / (tasa / 100)) in *.
  assert (E : pv * g + ap * f - objetivo == (ap - a) * f) by lra.
  split; [exact E|].
  rewrite E. split; intro H; nra.
Qed.

Lemma deficit_segun_aportacion_witness :
  deficit (valor_futuro 100000 1000 1 (7 / 100)) (3000 * 12 / (4 / 100))
    == (1000 - Qabs (- (3000 * 12 / (4 / 100) + - (100000) * (1 + 7 / 100 / 12) ^ 12)
                     / annuity_factor (7 / 100 / 12) 12))
       * annuity_factor (7 / 100 / 12) (1 * 12)
  /\ (deficit (valor_futuro 100000 1000 1 (7 / 100)) (3000 * 12 / (4 / 100)) < 0
      <-> 1000 < Qabs (- (3000 * 12 / (4 / 100) + - (100000) * (1 + 7 / 100 / 12) ^ 12)
                       / annuity_factor (7 / 100 / 12) 12)).
Proof.
  apply (deficit_segun_aportacion (npf_rate_answering (1 # 100)) npf_pmt
           100000 3000 4 1 1000 7
           (Qabs (- (3000 * 12 / (4 / 100) + - (100000) * (1 + 7 / 100 / 12) ^ 12)
                  / annuity_factor (7 / 100 / 12) 12))
           (mk_resumen (3000 * 12 / (4 / 100))
              (Some ((1 + (1 # 100)) ^ 12 - 1))
              (Some (Num (Qabs (- (3000 * 12 / (4 / 100)
                                   + - (100000) * (1 + 7 / 100 / 12) ^ 12)
                                / annuity_factor (7 / 100 / 12) 12))))
              (gap_ahorro
                 (Some (Num (Qabs (- (3000 * 12 / (4 / 100)
                                      + - (100000) * (1 + 7 / 100 / 12) ^ 12)
                                   / annuity_factor (7 / 100 / 12) 12)))) 1000)
              (valor_futuro 100000 1000 1 (7 / 100))
              (mk_series
                 (map (fun y => valor_futuro 100000 1000 y (7 / 100)) (years_axis 1))
                 (map (punto_objetivo 100000 1000 (Some ((1 + (1 # 100)) ^ 12 - 1))
                         (3000 * 12 / (4 / 100))) (years_axis 1))
                 (map (fun y => 100000 + 1000 * 12 * inject_Z y) (years_axis 1))))).
  - exact npf_pmt_cumple.
  - discriminate.
  - lia.
  - discriminate.
  - vm_compute. reflexivity.
  - reflexivity.
  - vm_compute. discriminate.
Defined.

(** ** The table of the report *)

Lemma filter_ninguno {A : Type} (p : A -> bool) (l : list A) :
  (forall x, In x l -> p x = false) -> filter p l = [].
Proof.
  induction l as [|a l IH]; intro H; cbn [filter]; [reflexivity|].
  rewrite (H a (or_introl eq_refl)). apply IH.
  intros x Hx. apply H. right. exact Hx.
Qed.

(** The rows kept are those of the years 0 to 5 and of the last year. *)
Lemma indices_to_show_years_axis (h : Z) :
  (0 <= h)%Z -> indices_to_show (years_axis h) = anios_del_informe h.
Proof.
  intro Hh. unfold indices_to_show, anios_del_informe.
  rewrite years_axis_length, Z2Nat.id by lia.
  replace (h + 1 - 1)%Z with h by lia.
  destruct (Z.le_gt_cases h 5) as [Hle|Hgt].
  - assert (Hcases : h = 0%Z \/ h = 1%Z \/ h = 2%Z \/ h = 3%Z \/ h = 4%Z \/ h = 5%Z)
      by lia.
    destruct Hcases as [->|[->|[->|[->|[->| ->]]]]]; reflexivity.
  - destruct (Z.ltb_spec 5 h) as [_|H]; [|lia].
    rewrite Z.min_r by lia.
    unfold py_range.
    replace (Z.to_nat (h + 1)) with (6 + (Z.to_nat (h - 6) + 1))%nat by lia.
    rewrite seq_app, (seq_app (Z.to_nat (h - 6)) 1), !map_app, !filter_app.
    change (0 + 6)%nat with 6%nat.
    replace (filter (fun i => ((i <=? 5)%Z || (i =? h)%Z)%bool)
               (map Z.of_nat (seq 6 (Z.to_nat (h - 6))))) with (@nil Z).
    2:{ symmetry. apply filter_ninguno.
        intros x Hx. apply in_map_iff in Hx. destruct Hx as [k [<- Hk]].
        apply in_seq in Hk.
        destruct (Z.leb_spec (Z.of_nat k) 5); [lia|].
        destruct (Z.eqb_spec (Z.of_nat k) h); [lia|]. reflexivity. }
    cbn [seq map app filter].
    replace (Z.of_nat (6 + Z.to_nat (h - 6))) with h by lia.
    rewrite Z.eqb_refl, orb_true_r.
    destruct (Z.leb_spec h 5); [lia|]. reflexivity.
Qed.

Lemma anios_del_informe_en_rango (h i : Z) :
  (0 <= h)%Z -> In i (anios_del_informe h) -> (0 <= i <= h)%Z.
Proof.
  intros Hh Hi. unfold anios_del_informe in Hi.
  apply in_app_or in Hi. destruct Hi as [Hi|Hi].
  - unfold py_range in Hi. apply in_map_iff in Hi. destruct Hi as [k [<- Hk]].
    apply in_seq in Hk. lia.
  - destruct (5 <? h)%Z; [|contradiction].
    destruct Hi as [<-|[]]. lia.
Qed.

Lemma py_take_map_years_axis {A : Type} (d : A) (f : Z -> A) (h : Z) (indices : list Z) :
  (forall i, In i indices -> (0 <= i <= h)%Z) ->
  py_take d (map f (years_axis h)) indices = map f indices.
Proof.
  intro H. unfold py_take. apply map_ext_in. intros i Hi.
  specialize (H i Hi).
  rewrite (nth_indep _ d (f 0%Z))
    by (rewrite length_map, years_axis_length; lia).
  rewrite map_nth, years_axis_nth, Z2Nat.id by lia. reflexivity.
Qed.

Lemma anios_del_informe_length (h : Z) :
  (0 <= h)%Z -> length (anios_del_informe h) = Z.to_nat (Z.min (h + 1) 7).
Proof.
  intro Hh. unfold anios_del_informe, py_range.
  rewrite length_app, length_map, length_seq.
  destruct (Z.ltb_spec 5 h); cbn [length]; lia.
Qed.

(** X13. The table of the report, built from the series of a horizon [h],
    has one row per year 0 to 5 and one for the last year: [min (h + 1) 7]
    rows.  A row shows the calendar year [2024 + y], the point of the
    objective series [serie_objetivo] for [y] (not the projected series),
    and the cash contributed up to [y]. *)
Theorem tabla_informe_filas
    (pv ap rate : Q) (cagr : option Q) (objetivo : Q) (h : Z) (st : series) :
  (0 <= h)%Z ->
  generar_series pv ap rate cagr objetivo h = Return st ->
  tabla_informe (years_axis h) st
    = mk_df_export
        (map (fun y => (2024 + y)%Z) (anios_del_informe h))
        (map (punto_objetivo pv ap cagr objetivo) (anios_del_informe h))
        (map (fun y => pv + ap * 12 * inject_Z y) (anios_del_informe h))
  /\ length (anios_del_informe h) = Z.to_nat (Z.min (h + 1) 7).
Proof.
  intros Hh Hst.
  rewrite generar_series_devuelve in Hst. injection Hst as <-.
  split; [|apply anios_del_informe_length; exact Hh].
  unfold tabla_informe. cbn [serie_objetivo serie_cash].
  rewrite indices_to_show_years_axis by exact Hh.
  rewrite !py_take_map_years_axis
    by (intros i Hi; apply (anios_del_informe_en_rango h i Hh Hi)).
  f_equal. f_equal.
  unfold py_take. rewrite <- (map_id (anios_del_informe h)) at 2.
  apply map_ext_in. intros i Hi.
  pose proof (anios_del_informe_en_rango h i Hh Hi).
  rewrite years_axis_nth, Z2Nat.id by lia. reflexivity.
Qed.

Lemma tabla_informe_filas_witness :
  tabla_informe (years_axis 20)
    (mk_series (map (fun y => valor_futuro 1000 100 y (6 # 100)) (years_axis 20))
               (map (punto_objetivo 1000 100 None 5000) (years_axis 20))
               (map (fun y => 1000 + 100 * 12 * inject_Z y) (years_axis 20)))
    = mk_df_export
        (map (fun y => (2024 + y)%Z) (anios_del_informe 20))
        (map (punto_objetivo 1000 100 None 5000) (anios_del_informe 20))
        (map (fun y => 1000 + 100 * 12 * inject_Z y) (anios_del_informe 20))
  /\ length (anios_del_informe 20) = Z.to_nat (Z.min (20 + 1) 7).
Proof.
  apply (tabla_informe_filas 1000 100 (6 # 100) None 5000 20).
  - lia.
  - apply generar_series_devuelve.
Defined.

(** ** A required rate or payment of zero *)

(** X14. The first card and the report read the required rate differently.
    They agree (the same figure, or "Inviable" in both) except for a
    required rate of exactly zero: the card then shows the figure 0, the
    report says "Inviable", and every point of the objective series is the
    flat target instead of a projection. *)
Theorem rentabilidad_cero_tarjeta_e_informe
    (pv ap : Q) (cagr_necesario : option Q) (objetivo : Q) :
  ((forall c, cagr_necesario = Some c -> ~ c == 0) ->
    tarjeta_rentabilidad cagr_necesario = informe_cagr cagr_necesario)
  /\ (forall c, cagr_necesario = Some c -> c == 0 ->
        tarjeta_rentabilidad cagr_necesario = Cifra (Num (c * 100))
        /\ informe_cagr cagr_necesario = Inviable
        /\ forall y, punto_objetivo pv ap cagr_necesario objetivo y = objetivo).
Proof.
  split.
  - intro H. destruct cagr_necesario as [c|]; [|reflexivity].
    unfold tarjeta_rentabilidad, informe_cagr.
    destruct (Qeq_bool c 0) eqn:E; [|reflexivity].
    apply Qeq_bool_iff in E. exfalso. exact (H c eq_refl E).
  - intros c -> Hc.
    unfold tarjeta_rentabilidad, informe_cagr, punto_objetivo.
    rewrite (proj2 (Qeq_bool_iff c 0) Hc). repeat split.
Qed.

Lemma rentabilidad_cero_tarjeta_e_informe_witness :
  tarjeta_rentabilidad (Some 0) = Cifra (Num (0 * 100))
  /\ informe_cagr (Some 0) = Inviable
  /\ forall y, punto_objetivo 1000 100 (Some 0) 5000 y = 5000.
Proof.
  apply (proj2 (rentabilidad_cero_tarjeta_e_informe 1000 100 (Some 0) 5000) 0);
    reflexivity.
Defined.

(** X21. The second card and the report read the required payment
    differently too.  They agree except for a required payment of exactly
    zero: the card then shows the figure 0, the report says "N/A", and the
    gap is 0 whatever is being saved. *)
Theorem ahorro_cero_tarjeta_e_informe
    (ahorro_necesario_mensual : option pyfloat) (aportacion_actual : Q) :
  ((forall a, ahorro_necesario_mensual = Some (Num a) -> ~ a == 0) ->
    tarjeta_ahorro ahorro_necesario_mensual = informe_ahorro ahorro_necesario_mensual)
  /\ (forall a, ahorro_necesario_mensual = Some (Num a) -> a == 0 ->
        tarjeta_ahorro ahorro_necesario_mensual = Cifra (Num a)
        /\ informe_ahorro ahorro_necesario_mensual = No_disponible
        /\ gap_ahorro ahorro_necesario_mensual aportacion_actual = Num 0).
Proof.
  split.
  - intro H. destruct ahorro_necesario_mensual as [[a|]|]; try reflexivity.
    unfold tarjeta_ahorro, informe_ahorro, truthy.
    destruct (Qeq_bool a 0) eqn:E; [|reflexivity].
    apply Qeq_bool_iff in E. exfalso. exact (H a eq_refl E).
  - intros a -> Ha.
    unfold tarjeta_ahorro, informe_ahorro, gap_ahorro, truthy.
    rewrite (proj2 (Qeq_bool_iff a 0) Ha). repeat split.
Qed.

Lemma ahorro_cero_tarjeta_e_informe_witness :
  tarjeta_ahorro (Some (Num 0)) = Cifra (Num 0)
  /\ informe_ahorro (Some (Num 0)) = No_disponible
  /\ gap_ahorro (Some (Num 0)) 1000 = Num 0.
Proof.
  apply (proj2 (ahorro_cero_tarjeta_e_informe (Some (Num 0)) 1000) 0); reflexivity.
Defined.

(** ** The CSV branch: which columns are preselected *)

Lemma py_list_index_primero (c : string) (cols : list string) :
  In c cols ->
  exists i,
    py_list_index c cols = Logrado i
    /\ nth_error cols i = Some c
    /\ forall j x, (j < i)%nat -> nth_error cols j = Some x -> x <> c.
Proof.
  induction cols as [|x cols IH]; intro Hin; [contradiction|].
  cbn [py_list_index].
  destruct (String.eqb_spec x c) as [->|Hne].
  - exists 0%nat. repeat split. intros j y Hj. lia.
  - destruct Hin as [Heq|Hin]; [contradiction|].
    destruct (IH Hin) as [i [Hi [Hnth Hfirst]]].
    exists (S i). rewrite Hi. cbn [intento_bind]. repeat split; [exact Hnth|].
    intros [|j] y Hj Hy.
    + cbn in Hy. injection Hy as <-. exact Hne.
    + cbn in Hy. apply (Hfirst j y); [lia | exact Hy].
Qed.

Lemma find_primero (p : string -> bool) (cols : list string) (c : string) :
  find p cols = Some c ->
  In c cols /\ p c = true
  /\ exists i, nth_error cols i = Some c
               /\ forall j x, (j < i)%nat -> nth_error cols j = Some x -> p x = false.
Proof.
  induction cols as [|x cols IH]; intro H; [discriminate|].
  cbn [find] in H. destruct (p x) eqn:Hp.
  - injection H as <-. split; [left; reflexivity|]. split; [exact Hp|].
    exists 0%nat. split; [reflexivity|]. intros j y Hj. lia.
  - destruct (IH H) as [Hin [Hpc [i [Hnth Hfirst]]]].
    split; [right; exact Hin|]. split; [exact Hpc|].
    exists (S i). split; [exact Hnth|].
    intros [|j] y Hj Hy.
    + cbn in Hy. injection Hy as <-. exact Hp.
    + cbn in Hy. apply (Hfirst j y); [lia | exact Hy].
Qed.

Lemma find_ninguno (p : string -> bool) (cols : list string) :
  find p cols = None -> forall x, In x cols -> p x = false.
Proof.
  intros H x Hx. exact (find_none p cols H x Hx).
Qed.

(** The position [cols.index] gives for what [next] chose. *)
Lemma preseleccion_de_next (p : string -> bool) (d : nat) (cols : list string)
    (porDefecto : string) :
  nth_error cols d = Some porDefecto ->
  exists i,
    py_list_index (py_next p cols porDefecto) cols = Logrado i
    /\ (i < length cols)%nat
    /\ preseleccion p d cols i.
Proof.
  intro Hd. unfold py_next.
  destruct (find p cols) as [c|] eqn:Hfind.
  - destruct (find_primero p cols c Hfind) as [Hin [Hpc [k [Hk Hkfirst]]]].
    destruct (py_list_index_primero c cols Hin) as [i [Hi [Hnth Hfirst]]].
    exists i. split; [exact Hi|].
    split; [apply nth_error_Some; rewrite Hnth; discriminate|].
    exists c. split; [exact Hnth|]. left. split; [exact Hpc|].
    intros j x Hj Hx.
    destruct (Nat.lt_ge_cases j k) as [Hjk|Hjk]; [exact (Hkfirst j x Hjk Hx)|].
    destruct (Nat.eq_dec i k) as [->|Hik]; [lia|].
    destruct (Nat.lt_ge_cases k i) as [Hki|Hki].
    + exfalso. exact (Hfirst k c Hki Hk eq_refl).
    + lia.
  - pose proof (nth_error_In cols d Hd) as Hin.
    destruct (py_list_index_primero porDefecto cols Hin) as [i [Hi [Hnth Hfirst]]].
    exists i. split; [exact Hi|].
    split; [apply nth_error_Some; rewrite Hnth; discriminate|].
    exists porDefecto. split; [exact Hnth|]. right.
    split; [apply find_ninguno; exact Hfind|]. split; [exact Hd | exact Hfirst].
Qed.

(** X15. With fewer than two columns the detection raises [IndexError]: the
    default [cols[1]] is evaluated before any name is looked at.  So a CSV
    of a single column leaves the net worth at 0, whatever that column is
    called and holds. *)
Theorem csv_de_una_columna (df : list (string * list celda)) :
  (length df < 2)%nat ->
  detectar_columnas (map fst df) = Fallido IndexError
  /\ patrimonio_csv df = 0.
Proof.
  intro H.
  assert (E : detectar_columnas (map fst df) = Fallido IndexError).
  { destruct df as [|[n1 c1] [|[n2 c2] df]]; [reflexivity | reflexivity|].
    cbn [length] in H. lia. }
  split; [exact E|]. unfold patrimonio_csv. rewrite E. reflexivity.
Qed.

Lemma csv_de_una_columna_witness :
  detectar_columnas (map fst [("Value"%string, [Numero 1000; Numero 2000])])
    = Fallido IndexError
  /\ patrimonio_csv [("Value"%string, [Numero 1000; Numero 2000])] = 0.
Proof.
  apply (csv_de_una_columna [("Value"%string, [Numero 1000; Numero 2000])]).
  cbn. lia.
Defined.

(** X16. With two columns or more the detection raises nothing.  The asset
    column preselected is the first whose name contains "Asset" or "Name",
    or else the first column; the value column is the first whose name
    contains "Value", "Balance" or "Valor", or else the second column (the
    first one, if both carry the same name). *)
Theorem detectar_columnas_preseleccion (cols : list string) :
  (2 <= length cols)%nat ->
  exists indice_activo indice_valor,
    detectar_columnas cols = Logrado (indice_activo, indice_valor)
    /\ (indice_activo < length cols)%nat
    /\ (indice_valor < length cols)%nat
    /\ preseleccion es_columna_activo 0 cols indice_activo
    /\ preseleccion es_columna_valor 1 cols indice_valor.
Proof.
  intro H.
  destruct cols as [|c0 [|c1 cols]]; cbn [length] in H; try lia.
  unfold detectar_columnas, py_item. cbn [nth_error intento_bind].
  destruct (preseleccion_de_next es_columna_activo 0 (c0 :: c1 :: cols) c0 eq_refl)
    as [ia [Hia [Hla Hpa]]].
  destruct (preseleccion_de_next es_columna_valor 1 (c0 :: c1 :: cols) c1 eq_refl)
    as [iv [Hiv [Hlv Hpv]]].
  exists ia, iv. rewrite Hia. cbn [intento_bind]. rewrite Hiv. cbn [intento_bind].
  repeat split; assumption.
Qed.

Lemma detectar_columnas_preseleccion_witness :
  exists indice_activo indice_valor,
    detectar_columnas ["Ticker"; "Asset Name"; "Quantity"; "Value (EUR)"]%string
      = Logrado (indice_activo, indice_valor)
    /\ (indice_activo < 4)%nat
    /\ (indice_valor < 4)%nat
    /\ preseleccion es_columna_activo 0
         ["Ticker"; "Asset Name"; "Quantity"; "Value (EUR)"]%string indice_activo
    /\ preseleccion es_columna_valor 1
         ["Ticker"; "Asset Name"; "Quantity"; "Value (EUR)"]%string indice_valor.
Proof.
  apply (detectar_columnas_preseleccion
           ["Ticker"; "Asset Name"; "Quantity"; "Value (EUR)"]%string).
  cbn. lia.
Defined.

(** ** The CSV branch: how a cell becomes a number *)

Lemma limpiar_append (a b : string) :
  limpiar (String.append a b) = String.append (limpiar a) (limpiar b).
Proof.
  induction a as [|c a IH]; cbn [String.append limpiar]; [reflexivity|].
  destruct (es_caracter_numerico c); cbn [String.append]; rewrite IH; reflexivity.
Qed.

Lemma digito_es_numerico (c : ascii) :
  es_digito c = true -> es_caracter_numerico c = true.
Proof. intro H. unfold es_caracter_numerico. rewrite H. reflexivity. Qed.

Lemma digito_no_es_punto (c : ascii) : es_digito c = true -> Ascii.eqb c "." = false.
Proof.
  intro H. destruct (Ascii.eqb_spec c "."%char) as [->|]; [discriminate H | reflexivity].
Qed.

Lemma digito_no_es_menos (c : ascii) : es_digito c = true -> Ascii.eqb c "-" = false.
Proof.
  intro H. destruct (Ascii.eqb_spec c "-"%char) as [->|]; [discriminate H | reflexivity].
Qed.

Lemma limpiar_digitos (a : string) : todos_digitos a = true -> limpiar a = a.
Proof.
  induction a as [|c a IH]; cbn [todos_digitos limpiar]; [reflexivity|].
  intro H. apply andb_prop in H. destruct H as [Hc Ha].
  rewrite (digito_es_numerico c Hc), (IH Ha). reflexivity.
Qed.

Lemma todos_digitos_append (a b : string) :
  todos_digitos (String.append a b) = (todos_digitos a && todos_digitos b)%bool.
Proof.
  induction a as [|c a IH]; cbn [String.append todos_digitos]; [reflexivity|].
  rewrite IH, andb_assoc. reflexivity.
Qed.

Lemma partir_punto_digitos (a : string) :
  todos_digitos a = true -> partir_punto a = (a, None).
Proof.
  induction a as [|c a IH]; cbn [todos_digitos partir_punto]; [reflexivity|].
  intro H. apply andb_prop in H. destruct H as [Hc Ha].
  rewrite (digito_no_es_punto c Hc), (IH Ha). reflexivity.
Qed.

Lemma partir_punto_digitos_punto (a resto : string) :
  todos_digitos a = true ->
  partir_punto (String.append a (String "." resto)) = (a, Some resto).
Proof.
  induction a as [|c a IH]; cbn [todos_digitos String.append partir_punto].
  - intros _. reflexivity.
  - intro H. apply andb_prop in H. destruct H as [Hc Ha].
    rewrite (digito_no_es_punto c Hc), (IH Ha). reflexivity.
Qed.

(** A text that starts with digits, or with a dot, carries no sign. *)
Lemma py_float_sin_menos (a resto : string) :
  todos_digitos a = true ->
  py_float (String.append a (String "." resto))
    = py_float_sin_signo (String.append a (String "." resto)).
Proof.
  destruct a as [|c a]; cbn [String.append todos_digitos py_float]; [reflexivity|].
  intro H. apply andb_prop in H. destruct H as [Hc _].
  rewrite (digito_no_es_menos c Hc). reflexivity.
Qed.

Lemma py_float_digitos (a : string) :
  todos_digitos a = true -> cadena_vacia a = false ->
  py_float a = Logrado (inject_Z (valor_digitos 0 a)).
Proof.
  intros Ha Hne.
  assert (E : py_float a = py_float_sin_signo a).
  { destruct a as [|c a]; [reflexivity|].
    cbn [todos_digitos] in Ha. apply andb_prop in Ha. destruct Ha as [Hc _].
    cbn [py_float]. rewrite (digito_no_es_menos c Hc). reflexivity. }
  rewrite E. unfold py_float_sin_signo.
  rewrite (partir_punto_digitos a Ha), Ha, Hne. reflexivity.
Qed.

Lemma cadena_vacia_append (a b : string) :
  cadena_vacia (String.append a b) = (cadena_vacia a && cadena_vacia b)%bool.
Proof. destruct a; reflexivity. Qed.

(** X17. A comma is not a decimal separator: it is deleted.  A cell
    written [a,b], with [a] and [b] digits, becomes the integer written
    [ab]; and the continental [a.b,c] becomes the number written [a.bc]
    (["1.234,56"] is read as 1.23456). *)
Theorem coma_decimal_eliminada (a b c : string) :
  todos_digitos a = true -> cadena_vacia a = false ->
  todos_digitos b = true -> todos_digitos c = true ->
  convertir_celda (Texto (String.append a (String "," b)))
    = Logrado (Some (inject_Z (valor_digitos 0 (String.append a b))))
  /\ convertir_celda (Texto (String.append a (String "." (String.append b (String "," c)))))
     = Logrado (Some (inject_Z (valor_digitos 0 (String.append a (String.append b c)))
                      / inject_Z (10 ^ Z.of_nat (String.length (String.append b c))))).
Proof.
  intros Ha Hne Hb Hc. unfold convertir_celda, reemplazar, astype_float. split.
  - rewrite limpiar_append. cbn [limpiar].
    replace (es_caracter_numerico ",") with false by reflexivity.
    rewrite (limpiar_digitos a Ha), (limpiar_digitos b Hb).
    rewrite py_float_digitos; [reflexivity | |].
    + rewrite todos_digitos_append, Ha, Hb. reflexivity.
    + rewrite cadena_vacia_append, Hne. reflexivity.
  - rewrite limpiar_append. cbn [limpiar].
    replace (es_caracter_numerico ".") with true by reflexivity.
    rewrite limpiar_append. cbn [limpiar].
    replace (es_caracter_numerico ",") with false by reflexivity.
    rewrite (limpiar_digitos a Ha), (limpiar_digitos b Hb), (limpiar_digitos c Hc).
    rewrite py_float_sin_menos by exact Ha.
    unfold py_float_sin_signo.
    rewrite (partir_punto_digitos_punto a _ Ha).
    rewrite Ha, todos_digitos_append, Hb, Hc, Hne. reflexivity.
Qed.

Lemma coma_decimal_eliminada_witness :
  convertir_celda (Texto (String.append "1" (String "," "234")))
    = Logrado (Some (inject_Z (valor_digitos 0 (String.append "1" "234"))))
  /\ convertir_celda
       (Texto (String.append "1" (String "." (String.append "234" (String "," "56")))))
     = Logrado (Some (inject_Z (valor_digitos 0 (String.append "1" (String.append "234" "56")))
                      / inject_Z (10 ^ Z.of_nat (String.length (String.append "234" "56"))))).
Proof.
  apply (coma_decimal_eliminada "1" "234" "56"); reflexivity.
Defined.

Lemma convertir_celda_solo_ValueError (c : celda) (e : csv_exn) :
  convertir_celda c = Fallido e -> e = ValueError.
Proof.
  destruct c as [s|q|]; unfold convertir_celda, reemplazar, astype_float;
    [|discriminate|discriminate].
  assert (H : forall t e', py_float_sin_signo t = Fallido e' -> e' = ValueError).
  { intros t e'. unfold py_float_sin_signo.
    destruct (partir_punto t) as [x [y|]];
      match goal with |- context [if ?b then _ else _] => destruct b end;
      intro E; try discriminate; injection E as <-; reflexivity. }
  unfold py_float.
  destruct (limpiar s) as [|c r].
  - destruct (py_float_sin_signo EmptyString) eqn:E; cbn; [discriminate|].
    intro E'. injection E' as <-. exact (H _ _ E).
  - destruct (Ascii.eqb c "-").
    + destruct (py_float_sin_signo r) eqn:E; cbn; [discriminate|].
      intro E'. injection E' as <-. exact (H _ _ E).
    + destruct (py_float_sin_signo (String c r)) eqn:E; cbn; [discriminate|].
      intro E'. injection E' as <-. exact (H _ _ E).
Qed.

Lemma convertir_columna_falla (col : list celda) (c : celda) (e : csv_exn) :
  In c col -> convertir_celda c = Fallido e ->
  convertir_columna col = Fallido ValueError.
Proof.
  induction col as [|x col IH]; intros Hin Hc; [contradiction|].
  cbn [convertir_columna].
  destruct (convertir_celda x) as [v|e'] eqn:Ex.
  - destruct Hin as [->|Hin]; [rewrite Hc in Ex; discriminate|].
    cbn [intento_bind]. rewrite (IH Hin Hc). reflexivity.
  - cbn [intento_bind]. rewrite (convertir_celda_solo_ValueError x e' Ex). reflexivity.
Qed.

(** X18. One cell that cannot be converted discards the whole column: the
    conversion raises [ValueError] and the net worth stays at 0, whatever
    the other cells hold. *)
Theorem una_celda_ilegible_anula_el_total (col : list celda) (c : celda) (e : csv_exn) :
  In c col -> convertir_celda c = Fallido e ->
  convertir_columna col = Fallido ValueError /\ patrimonio_de_columna col = 0.
Proof.
  intros Hin Hc.
  pose proof (convertir_columna_falla col c e Hin Hc) as E.
  split; [exact E|]. unfold patrimonio_de_columna. rewrite E. reflexivity.
Qed.

Lemma una_celda_ilegible_anula_el_total_witness :
  convertir_columna [Texto "1000"; Texto "pendiente"; Texto "2500.50"]
    = Fallido ValueError
  /\ patrimonio_de_columna [Texto "1000"; Texto "pendiente"; Texto "2500.50"] = 0.
Proof.
  apply (una_celda_ilegible_anula_el_total
           [Texto "1000"; Texto "pendiente"; Texto "2500.50"] (Texto "pendiente") ValueError).
  - right. left. reflexivity.
  - reflexivity.
Defined.

Lemma todos_digitos_con_otro (p : string) (c : ascii) (q : string) :
  es_digito c = false -> todos_digitos (String.append p (String c q)) = false.
Proof.
  intro Hc. rewrite todos_digitos_append. cbn [todos_digitos]. rewrite Hc.
  apply andb_false_r.
Qed.

Lemma sin_digitos_limpiar (s : string) :
  sin_digitos s = true -> sin_digitos (limpiar s) = true.
Proof.
  induction s as [|c s IH]; cbn [sin_digitos limpiar]; [reflexivity|].
  intro H. apply andb_prop in H. destruct H as [Hc Hs].
  destruct (es_caracter_numerico c); [|exact (IH Hs)].
  cbn [sin_digitos]. apply andb_true_intro. split; [exact Hc | exact (IH Hs)].
Qed.

Lemma sin_digitos_todos_digitos (s : string) :
  sin_digitos s = true -> todos_digitos s = true -> s = EmptyString.
Proof.
  destruct s as [|c s]; [reflexivity|]. cbn [sin_digitos todos_digitos].
  intros H1 H2. apply andb_prop in H1. apply andb_prop in H2.
  destruct H1 as [H1 _]. destruct H2 as [H2 _]. rewrite H2 in H1. discriminate.
Qed.

Lemma sin_digitos_partir_punto (s : string) :
  sin_digitos s = true ->
  sin_digitos (fst (partir_punto s)) = true
  /\ forall y, snd (partir_punto s) = Some y -> sin_digitos y = true.
Proof.
  induction s as [|c s IH]; cbn [sin_digitos partir_punto].
  - intros _. split; [reflexivity | discriminate].
  - intro H. apply andb_prop in H. destruct H as [Hc Hs].
    destruct (Ascii.eqb c ".").
    + split; [reflexivity|]. intros y Hy. cbn in Hy. injection Hy as <-. exact Hs.
    + destruct (IH Hs) as [Hx Hy]. destruct (partir_punto s) as [x o].
      cbn [fst snd] in *. split; [|exact Hy].
      cbn [sin_digitos]. apply andb_true_intro. split; assumption.
Qed.

Lemma py_float_sin_signo_sin_digitos (s : string) :
  sin_digitos s = true -> py_float_sin_signo s = Fallido ValueError.
Proof.
  intro H. destruct (sin_digitos_partir_punto s H) as [Hx Hy].
  unfold py_float_sin_signo. destruct (partir_punto s) as [x [y|]]; cbn [fst snd] in *.
  - destruct (todos_digitos x) eqn:Tx; [|reflexivity].
    destruct (todos_digitos y) eqn:Ty; [|reflexivity].
    rewrite (sin_digitos_todos_digitos x Hx Tx),
            (sin_digitos_todos_digitos y (Hy y eq_refl) Ty).
    reflexivity.
  - destruct (todos_digitos x) eqn:Tx; [|reflexivity].
    rewrite (sin_digitos_todos_digitos x Hx Tx). reflexivity.
Qed.

Lemma py_float_sin_digitos (s : string) :
  sin_digitos s = true -> py_float s = Fallido ValueError.
Proof.
  intro H. destruct s as [|c r]; [reflexivity|].
  cbn [py_float]. destruct (Ascii.eqb c "-").
  - cbn [sin_digitos] in H. apply andb_prop in H. destruct H as [_ Hr].
    rewrite (py_float_sin_signo_sin_digitos r Hr). reflexivity.
  - apply py_float_sin_signo_sin_digitos. exact H.
Qed.

Lemma partir_punto_con_menos (u v : string) :
  todos_digitos (fst (partir_punto (String.append u (String "-" v)))) = false
  \/ exists y, snd (partir_punto (String.append u (String "-" v))) = Some y
               /\ todos_digitos y = false.
Proof.
  induction u as [|c u IH]; cbn [String.append partir_punto].
  - replace (Ascii.eqb "-" ".") with false by reflexivity.
    destruct (partir_punto v) as [x o]. left. reflexivity.
  - destruct (Ascii.eqb c ".").
    + right. eexists. split; [reflexivity|].
      apply todos_digitos_con_otro. reflexivity.
    + destruct (partir_punto (String.append u (String "-" v))) as [x o].
      cbn [fst snd] in *. destruct IH as [IH|IH].
      * left. cbn [todos_digitos]. rewrite IH. apply andb_false_r.
      * right. exact IH.
Qed.

Lemma py_float_sin_signo_con_menos (u v : string) :
  py_float_sin_signo (String.append u (String "-" v)) = Fallido ValueError.
Proof.
  unfold py_float_sin_signo.
  destruct (partir_punto_con_menos u v) as [H|[y [Hy Ty]]];
    destruct (partir_punto (String.append u (String "-" v))) as [x [y'|]];
    cbn [fst snd] in *.
  - rewrite H. reflexivity.
  - rewrite H. reflexivity.
  - injection Hy as ->. rewrite Ty, andb_false_r. reflexivity.
  - discriminate.
Qed.

Lemma partir_punto_dos_puntos (u r : string) :
  exists x y,
    partir_punto (String.append u (String "." r)) = (x, Some y)
    /\ (todos_digitos x = false \/ exists p q, y = String.append p q /\ q = r).
Proof.
  induction u as [|c u IH]; cbn [String.append partir_punto].
  - replace (Ascii.eqb "." ".") with true by reflexivity.
    exists EmptyString, r. split; [reflexivity|]. right.
    exists EmptyString, r. split; reflexivity.
  - destruct (Ascii.eqb c ".").
    + exists EmptyString, (String.append u (String "." r)). split; [reflexivity|].
      right. exists (String.append u (String "." EmptyString)), r.
      split; [|reflexivity].
      clear. induction u as [|c u IH]; cbn [String.append]; [reflexivity|].
      rewrite <- IH. reflexivity.
    + destruct IH as [x [y [E H]]]. rewrite E.
      exists (String c x), y. split; [reflexivity|].
      destruct H as [H|H]; [left|right; exact H].
      cbn [todos_digitos]. rewrite H. apply andb_false_r.
Qed.

Lemma py_float_sin_signo_dos_puntos (u v w : string) :
  py_float_sin_signo
    (String.append u (String "." (String.append v (String "." w))))
  = Fallido ValueError.
Proof.
  destruct (partir_punto_dos_puntos u (String.append v (String "." w)))
    as [x [y [E H]]].
  unfold py_float_sin_signo. rewrite E.
  destruct H as [H|[p [q [-> ->]]]].
  - rewrite H. reflexivity.
  - assert (T : todos_digitos (String.append p (String.append v (String "." w))) = false).
    { rewrite todos_digitos_append, (todos_digitos_con_otro v "." w eq_refl).
      apply andb_false_r. }
    rewrite T, andb_false_r. reflexivity.
Qed.

(** X19. Cells that raise [ValueError].  A text with no digit (ASCII text,
    as "N/D" or "-"); a text that, once the other characters are deleted,
    has two dots (the continental ["1.234.567"]); and one that has a minus
    sign after its first character (["100-"], ["2020-2024"]). *)
Theorem celdas_ilegibles (s : string) :
  (solo_ascii s = true -> sin_digitos s = true ->
   convertir_celda (Texto s) = Fallido ValueError)
  /\ (forall u v w,
        limpiar s = String.append u (String "." (String.append v (String "." w))) ->
        convertir_celda (Texto s) = Fallido ValueError)
  /\ (forall c u v,
        limpiar s = String c (String.append u (String "-" v)) ->
        convertir_celda (Texto s) = Fallido ValueError).
Proof.
  unfold convertir_celda, reemplazar, astype_float.
  split; [|split].
  - intros _ H. rewrite (py_float_sin_digitos _ (sin_digitos_limpiar s H)). reflexivity.
  - intros u v w E. rewrite E.
    assert (F : py_float (String.append u (String "." (String.append v (String "." w))))
                = Fallido ValueError).
    { destruct u as [|c u]; cbn [String.append py_float].
      - replace (Ascii.eqb "." "-") with false by reflexivity.
        exact (py_float_sin_signo_dos_puntos EmptyString v w).
      - destruct (Ascii.eqb c "-").
        + rewrite (py_float_sin_signo_dos_puntos u v w). reflexivity.
        + exact (py_float_sin_signo_dos_puntos (String c u) v w). }
    rewrite F. reflexivity.
  - intros c u v E. rewrite E. cbn [py_float].
    destruct (Ascii.eqb c "-").
    + rewrite (py_float_sin_signo_con_menos u v). reflexivity.
    + pose proof (py_float_sin_signo_con_menos (String c u) v) as F.
      cbn [String.append] in F. rewrite F. reflexivity.
Qed.

Lemma celdas_ilegibles_witness :
  convertir_celda (Texto "N/D") = Fallido ValueError
  /\ convertir_celda (Texto "1.234.567 EUR") = Fallido ValueError
  /\ convertir_celda (Texto "2020-2024") = Fallido ValueError.
Proof.
  split; [|split].
  - apply (proj1 (celdas_ilegibles "N/D")); reflexivity.
  - apply (proj1 (proj2 (celdas_ilegibles "1.234.567 EUR"))
             "1"%string "234"%string "567"%string).
    reflexivity.
  - apply (proj2 (proj2 (celdas_ilegibles "2020-2024"))
             "2"%char "020"%string "2024"%string).
    reflexivity.
Defined.

Lemma limpiar_con_ruido (w s : string) : con_ruido w s -> limpiar s = limpiar w.
Proof.
  induction 1 as [|c w s _ IH|c w s Hc _ _ IH]; cbn [limpiar].
  - reflexivity.
  - rewrite IH. reflexivity.
  - rewrite Hc. exact IH.
Qed.

(** X20. Characters that are ASCII and neither digits, dots nor minus
    signs (spaces, thousands commas, "$", "EUR", parentheses) change
    nothing wherever they stand in a cell: the cell converts as the text
    without them does.  So ["(100)"], an accountant's negative, converts
    as ["100"]. *)
Theorem ruido_ignorado (w s : string) :
  con_ruido w s -> convertir_celda (Texto s) = convertir_celda (Texto w).
Proof.
  intro H. unfold convertir_celda, reemplazar.
  rewrite (limpiar_con_ruido w s H). reflexivity.
Qed.

Lemma ruido_ignorado_witness :
  convertir_celda (Texto "(100)") = convertir_celda (Texto "100").
Proof.
  apply (ruido_ignorado "100" "(100)").
  apply ruido_extra; [reflexivity | cbn; lia |].
  do 3 apply ruido_igual.
  apply ruido_extra; [reflexivity | cbn; lia |].
  apply ruido_fin.
Defined.

(** Two runs of the CSV branch: a cell with a currency sign and a thousands
    comma, and a frame of three columns whose value column has a missing
    cell. *)
Example celda_con_moneda :
  exists q, convertir_celda (Texto "$ 1,234.50") = Logrado (Some q) /\ q == 12345 / 10.
Proof. eexists. split; reflexivity. Qed.

Example patrimonio_csv_de_tres_columnas :
  patrimonio_csv
    [("Asset Name"%string, [Texto "Fondo"; Texto "Cuenta"; Texto "Hipoteca"]);
     ("Ticker"%string, [Texto "IWDA"; Falta; Falta]);
     ("Value (EUR)"%string, [Texto "EUR 12,000.00"; Falta; Texto "-150,000"])]
  == - (138000).
Proof. reflexivity. Qed.
